(** * ipstream: camera enumeration and MJPEG streaming server (Main.py)

    A shallow embedding of [Main.py].  The program is effectful Python:
    it opens camera devices through OpenCV, prints to and reads from the
    console, binds an HTTP listener and writes to client sockets.  The
    model keeps every such effect explicit:

    - the outside world (camera hardware, the JPEG encoder, the console
      input line, the network) is an [Env] record of oracles;
    - the process state ([Proc]) is a store of capture objects, a clock
      and a chronological trace of observable events;
    - Python exceptions are the [Raise] branch of [result], and the code
      is written in a small state-and-exception monad [M]. *)

From Stdlib Require Import ZArith List String Ascii Strings.Byte Bool Lia Arith.
From Stdlib Require Import DecimalString DecimalNat DecimalPos DecimalZ Sorted.
Import ListNotations.

Local Open Scope string_scope.
Local Open Scope Z_scope.

(* ================================================================== *)
(** ** Python values and built-ins used by the program *)
(* ================================================================== *)

(** The exception classes that can occur.  [KeyboardInterrupt] and
    [SystemExit] derive from [BaseException] only; the others are
    subclasses of [Exception]. *)
Inductive exn : Type :=
| ValueError
| IndexError
| EOFError
| OSError
| BrokenPipeError
| KeyboardInterrupt
| SystemExit.

Definition is_Exception (e : exn) : bool :=
  match e with
  | KeyboardInterrupt | SystemExit => false
  | _ => true
  end.

Definition exn_message (e : exn) : string :=
  match e with
  | ValueError => "invalid literal for int() with base 10"
  | IndexError => "list index out of range"
  | EOFError => "EOF when reading a line"
  | OSError => "[Errno 98] Address already in use"
  | BrokenPipeError => "[Errno 32] Broken pipe"
  | KeyboardInterrupt => ""
  | SystemExit => ""
  end.

Inductive result (A : Type) : Type :=
| Ok (a : A)
| Raise (e : exn).
Arguments Ok {A} a.
Arguments Raise {A} e.

Definition nl : string := String "010" EmptyString.
Definition crlf : string := String "013" (String "010" EmptyString).

(** [str(n)] for an integer. *)
Definition str_Z (z : Z) : string := NilZero.string_of_int (Z.to_int z).

(** [str(n)] for a length. *)
Definition str_nat (n : nat) : string := NilZero.string_of_uint (Nat.to_uint n).

(** [s.encode()] on text that is ASCII. *)
Definition encode (s : string) : list byte := list_byte_of_string s.

(** [needle in hay] on strings. *)
Fixpoint contains (needle hay : string) : bool :=
  if String.prefix needle hay then true
  else match hay with
       | EmptyString => false
       | String _ rest => contains needle rest
       end.

(** *** [int(s)] on an ASCII line

    Python strips surrounding whitespace, accepts one optional sign and
    then decimal digits, where single underscores may separate digits. *)

Definition is_space (c : ascii) : bool :=
  let n := nat_of_ascii c in
  ((9 <=? n) && (n <=? 13) || (28 <=? n) && (n <=? 32))%nat.

Definition digit_of (c : ascii) : option Z :=
  let n := nat_of_ascii c in
  if ((48 <=? n) && (n <=? 57))%nat then Some (Z.of_nat (n - 48)) else None.

Inductive scan : Type := AtStart | AfterDigit | AfterUnderscore.

Fixpoint int_digits (st : scan) (acc : Z) (s : list ascii) : option Z :=
  match s with
  | [] => match st with AfterDigit => Some acc | _ => None end
  | c :: rest =>
      match digit_of c with
      | Some d => int_digits AfterDigit (10 * acc + d) rest
      | None =>
          if Ascii.eqb c "_" then
            match st with
            | AfterDigit => int_digits AfterUnderscore acc rest
            | _ => None
            end
          else None
      end
  end.

Fixpoint lstrip (s : list ascii) : list ascii :=
  match s with
  | c :: rest => if is_space c then lstrip rest else s
  | [] => []
  end.

Definition strip (s : list ascii) : list ascii :=
  rev (lstrip (rev (lstrip s))).

Definition py_int (s : string) : result Z :=
  match strip (list_ascii_of_string s) with
  | "-"%char :: ds =>
      match int_digits AtStart 0 ds with
      | Some v => Ok (- v)
      | None => Raise ValueError
      end
  | "+"%char :: ds =>
      match int_digits AtStart 0 ds with
      | Some v => Ok v
      | None => Raise ValueError
      end
  | ds =>
      match int_digits AtStart 0 ds with
      | Some v => Ok v
      | None => Raise ValueError
      end
  end.

(** *** [l[i]] on a list: a negative index counts from the end. *)
Definition py_getitem {A : Type} (l : list A) (i : Z) : result A :=
  let n := Z.of_nat (List.length l) in
  let j := if i <? 0 then i + n else i in
  if (0 <=? j) && (j <? n) then
    match nth_error l (Z.to_nat j) with
    | Some x => Ok x
    | None => Raise IndexError
    end
  else Raise IndexError.

(** [range(n)] *)
Definition range (n : nat) : list Z := map Z.of_nat (seq 0 n).

(* ================================================================== *)
(** ** The outside world *)
(* ================================================================== *)

(** A decoded image: height x width x channels, 8 bits per sample. *)
Record Frame : Type := {
  rows : nat;
  cols : nat;
  channels : nat;
  samples : list byte
}.

(** OpenCV constants. *)
Definition CAP_PROP_FRAME_WIDTH : Z := 3.
Definition CAP_PROP_FRAME_HEIGHT : Z := 4.
Definition IMWRITE_JPEG_QUALITY : Z := 1.

(** How the server's run is brought to an end from outside. *)
Inductive stop_cause : Type :=
| StopInterrupt      (* SIGINT: KeyboardInterrupt in the main thread *)
| StopExit.          (* any other BaseException, e.g. SystemExit *)

Definition stop_exn (c : stop_cause) : exn :=
  match c with
  | StopInterrupt => KeyboardInterrupt
  | StopExit => SystemExit
  end.

(** One accepted connection carrying a GET request.  [conn_patience] is
    the number of socket writes that still succeed before the client is
    gone ([None]: the client never disconnects). *)
Record Connection : Type := {
  conn_path : string;
  conn_version : string;
  conn_patience : option nat
}.

Record Env : Type := {
  (* cv2.VideoCapture(i).isOpened() *)
  hw_opens : Z -> bool;
  (* int(cap.get(CAP_PROP_FRAME_WIDTH)), int(cap.get(CAP_PROP_FRAME_HEIGHT)) *)
  hw_width : Z -> Z;
  hw_height : Z -> Z;
  (* cap.getBackendName() *)
  hw_backend : Z -> string;
  (* the k-th poll of device i: [None] is ret = False *)
  hw_frames : Z -> nat -> option Frame;
  (* cv2.imencode(ext, frame, params) as bytes *)
  imencode : string -> Frame -> list Z -> list byte;
  (* names of the Win32_PnPEntity instances; [None] when the lookup raises *)
  wmi_names : option (list string);
  (* the line typed at the console; [None] is end of input *)
  stdin_line : option string;
  (* address read back from the throwaway UDP socket; [None] on failure *)
  udp_local_addr : option string;
  (* whether the listener can bind its address *)
  bind_ok : bool;
  (* lines send_response(code) queues: status line, Server and Date *)
  response_head : Z -> list (list byte);
  (* the HTML document of lines 61-187 for a given camera title *)
  viewer_page : string -> string;
  (* connections in the order accept() returns them *)
  incoming : list Connection;
  (* number of handler steps the process runs before it is stopped *)
  stop_after : nat;
  stop_by : stop_cause
}.

(* ================================================================== *)
(** ** Process state *)
(* ================================================================== *)

(** A [cv2.VideoCapture] object.  Its handle is its position in the
    store of capture objects. *)
Record Capture : Type := {
  cap_source : Z;
  cap_open : bool;     (* the object currently holds its device *)
  cap_pos : nat        (* polls made so far *)
}.

Inductive event : Type :=
| EvCapture (h : nat) (source : Z)        (* cv2.VideoCapture(source) *)
| EvRead (h : nat)
| EvRelease (h : nat)
| EvSet (h : nat) (prop value : Z)
| EvPrint (s : string)
| EvInput (prompt : string)
| EvBind (ip : string) (port : Z)         (* HTTPServer((ip, port), ...) *)
| EvServe                                 (* serve_forever() entered *)
| EvServerClose.


Record Proc : Type := {
  caps : list Capture;
  trace : list event;           (* oldest first *)
  clock : nat;                  (* handler steps taken so far *)
  wire : list (list byte)       (* bytes sent to each handled connection *)
}.

Definition init : Proc :=
  {| caps := []; trace := []; clock := 0%nat; wire := [] |}.

(* ================================================================== *)
(** ** The monad *)
(* ================================================================== *)

Definition M (S A : Type) : Type := S -> result A * S.

Definition ret {S A} (a : A) : M S A := fun s => (Ok a, s).

Definition bind {S A B} (c : M S A) (k : A -> M S B) : M S B :=
  fun s => match c s with
           | (Ok a, s') => k a s'
           | (Raise e, s') => (Raise e, s')
           end.

Definition raise {S A} (e : exn) : M S A := fun s => (Raise e, s).

Definition get {S} : M S S := fun s => (Ok s, s).

Definition modify {S} (f : S -> S) : M S unit := fun s => (Ok tt, f s).

(** [try: c  except <class>: handler], for the classes selected by [catches]. *)
Definition try_except {S A} (c : M S A) (catches : exn -> bool)
    (handler : exn -> M S A) : M S A :=
  fun s => match c s with
           | (Ok a, s') => (Ok a, s')
           | (Raise e, s') => if catches e then handler e s' else (Raise e, s')
           end.

(** [try: c  finally: cleanup] *)
Definition try_finally {S A} (c : M S A) (cleanup : M S unit) : M S A :=
  fun s => match c s with
           | (r, s') =>
               match cleanup s' with
               | (Ok _, s'') => (r, s'')
               | (Raise e, s'') => (Raise e, s'')
               end
           end.

Definition lift_result {S A} (r : result A) : M S A := fun s => (r, s).

Notation "x <- c ;; k" := (bind c (fun x => k))
  (at level 61, c at next level, right associativity).
Notation "c ;; k" := (bind c (fun _ => k))
  (at level 61, right associativity).

(* ================================================================== *)
(** ** The program *)
(* ================================================================== *)

(** The dictionary built by [get_camera_info]: a fixed set of keys. *)
Record CameraInfo : Type := {
  id : Z;
  name : string;
  resolution : string;
  backend : string
}.

Definition set_caps (f : list Capture -> list Capture) (p : Proc) : Proc :=
  {| caps := f (caps p); trace := trace p; clock := clock p; wire := wire p |}.

Definition log (e : event) : M Proc unit :=
  modify (fun p => {| caps := caps p; trace := trace p ++ [e];
                      clock := clock p; wire := wire p |}).

(** In-place update of the object at handle [h]. *)
Fixpoint update_at {A : Type} (h : nat) (f : A -> A) (l : list A) : list A :=
  match l, h with
  | [], _ => []
  | x :: rest, O => f x :: rest
  | x :: rest, S h' => x :: update_at h' f rest
  end.

Definition print (s : string) : M Proc unit := log (EvPrint s).

Section Program.

Variable env : Env.

(** *** OpenCV capture objects *)

Definition VideoCapture (source_id : Z) : M Proc nat :=
  fun p =>
    let h := List.length (caps p) in
    let obj := {| cap_source := source_id;
                  cap_open := hw_opens env source_id;
                  cap_pos := 0%nat |} in
    (Ok h, {| caps := caps p ++ [obj];
              trace := trace p ++ [EvCapture h source_id];
              clock := clock p; wire := wire p |}).

Definition lookup_cap (h : nat) : M Proc (option Capture) :=
  fun p => (Ok (nth_error (caps p) h), p).

Definition isOpened (h : nat) : M Proc bool :=
  c <- lookup_cap h ;;
  ret (match c with Some c => cap_open c | None => false end).

Definition cap_get (h : nat) (prop : Z) : M Proc Z :=
  c <- lookup_cap h ;;
  ret (match c with
       | Some c =>
           if negb (cap_open c) then 0
           else if prop =? CAP_PROP_FRAME_WIDTH then hw_width env (cap_source c)
           else if prop =? CAP_PROP_FRAME_HEIGHT then hw_height env (cap_source c)
           else 0
       | None => 0
       end).

Definition getBackendName (h : nat) : M Proc string :=
  c <- lookup_cap h ;;
  ret (match c with Some c => hw_backend env (cap_source c) | None => "" end).

(** [cap.read()]: [Some f] stands for [(True, f)], [None] for
    [(False, None)].  Every poll of an open object advances it. *)
Definition cap_read (h : nat) : M Proc (option Frame) :=
  c <- lookup_cap h ;;
  log (EvRead h) ;;
  match c with
  | Some c =>
      if cap_open c then
        modify (set_caps (update_at h (fun c =>
          {| cap_source := cap_source c; cap_open := cap_open c;
             cap_pos := S (cap_pos c) |}))) ;;
        ret (hw_frames env (cap_source c) (cap_pos c))
      else ret None
  | None => ret None
  end.

Definition cap_release (h : nat) : M Proc unit :=
  log (EvRelease h) ;;
  modify (set_caps (update_at h (fun c =>
    {| cap_source := cap_source c; cap_open := false; cap_pos := cap_pos c |}))).

Definition cap_set (h : nat) (prop value : Z) : M Proc unit :=
  log (EvSet h prop value).

(** *** get_camera_info (lines 8-49) *)

Definition usb_camera (n : string) : bool :=
  contains "USB" n && contains "Camera" n.

Definition get_camera_info (source_id : Z) : M Proc (option CameraInfo) :=
  cap <- VideoCapture source_id ;;
  opened <- isOpened cap ;;
  if negb opened then ret None
  else
    width <- cap_get cap CAP_PROP_FRAME_WIDTH ;;
    height <- cap_get cap CAP_PROP_FRAME_HEIGHT ;;
    backend <- getBackendName cap ;;
    frame <- cap_read cap ;;
    cap_release cap ;;
    match frame with
    | None => ret None
    | Some _ =>
        let pnp_name :=
          match wmi_names env with
          | Some names => find usb_camera names
          | None => None              (* except: pass *)
          end in
        match pnp_name with
        | Some camera_name =>
            ret (Some {| id := source_id;
                         name := camera_name;
                         resolution := str_Z width ++ "x" ++ str_Z height;
                         backend := backend |})
        | None =>
            ret (Some {| id := source_id;
                         name := "Camera " ++ str_Z source_id;
                         resolution := str_Z width ++ "x" ++ str_Z height;
                         backend := backend |})
        end
    end.

(** *** list_video_sources (lines 212-218) *)

Fixpoint probe_each (indices : list Z) (available_sources : list CameraInfo)
  : M Proc (list CameraInfo) :=
  match indices with
  | [] => ret available_sources
  | i :: rest =>
      info <- get_camera_info i ;;
      match info with
      | Some info => probe_each rest (available_sources ++ [info])
      | None => probe_each rest available_sources
      end
  end.

Definition list_video_sources : M Proc (list CameraInfo) :=
  probe_each (range 10) [].

(** *** get_local_ip (lines 220-228) *)

Definition get_local_ip : string :=
  match udp_local_addr env with
  | Some ip => ip
  | None => "127.0.0.1"
  end.

(** *** The request handler's view of one connection

    [self] of [VideoStreamHandler]: the request line fields parsed by
    the base class, the header buffer the base class keeps, the client
    socket, and (through [self.server]) the objects [main] attached to
    the listener. *)

Record Server : Type := {
  video_source : nat;            (* handle of the shared capture object *)
  camera_info : CameraInfo
}.

Record Handler : Type := {
  server : Server;
  path : string;
  request_version : string;
  headers_buffer : list (list byte);   (* self._headers_buffer *)
  sent : list byte;                    (* bytes written to self.wfile *)
  patience : option nat;               (* writes the client still accepts *)
  proc : Proc
}.

Definition with_buffer (b : list (list byte)) (self : Handler) : Handler :=
  {| server := server self; path := path self;
     request_version := request_version self;
     headers_buffer := b; sent := sent self;
     patience := patience self; proc := proc self |}.

Definition with_proc (p : Proc) (self : Handler) : Handler :=
  {| server := server self; path := path self;
     request_version := request_version self;
     headers_buffer := headers_buffer self; sent := sent self;
     patience := patience self; proc := p |}.

(** Run a process-level action from inside a handler. *)
Definition in_proc {A} (c : M Proc A) : M Handler A :=
  fun self => match c (proc self) with
              | (r, p') => (r, with_proc p' self)
              end.

Definition tick : M Proc unit :=
  modify (fun p => {| caps := caps p; trace := trace p;
                      clock := S (clock p); wire := wire p |}).

(** [self.wfile.write(data)]: fails once the client is gone. *)
Definition wfile_write (data : list byte) : M Handler unit :=
  fun self =>
    let put k := {| server := server self; path := path self;
                    request_version := request_version self;
                    headers_buffer := headers_buffer self;
                    sent := sent self ++ data;
                    patience := k; proc := proc self |} in
    match patience self with
    | None => (Ok tt, put None)
    | Some (S k) => (Ok tt, put (Some k))
    | Some O => (Raise BrokenPipeError, self)
    end.

(** The header methods of [BaseHTTPRequestHandler].  Each of them is
    guarded by [self.request_version != 'HTTP/0.9'] in the base class:
    a request line without a version gets no status line and no
    headers. *)
Definition versioned (self : Handler) : bool :=
  negb (String.eqb (request_version self) "HTTP/0.9").

Definition queue (lines : list (list byte)) : M Handler unit :=
  modify (fun self => with_buffer (headers_buffer self ++ lines) self).

Definition send_response (code : Z) : M Handler unit :=
  self <- get ;;
  if versioned self then queue (response_head env code) else ret tt.

Definition send_header (keyword value : string) : M Handler unit :=
  self <- get ;;
  if versioned self then queue [encode (keyword ++ ": " ++ value ++ crlf)]
  else ret tt.

Definition flush_headers : M Handler unit :=
  self <- get ;;
  wfile_write (List.concat (headers_buffer self)) ;;
  modify (with_buffer []).

Definition end_headers : M Handler unit :=
  self <- get ;;
  if versioned self then queue [encode crlf] ;; flush_headers else ret tt.

(** *** VideoStreamHandler.do_GET (lines 52-210) *)

(** The body of [while True:] (lines 195-207). *)
Definition stream_iteration : M Handler unit :=
  self <- get ;;
  frame <- in_proc (cap_read (video_source (server self))) ;;
  match frame with
  | None => ret tt                                  (* continue *)
  | Some frame =>
      let encode_param := [IMWRITE_JPEG_QUALITY; 95] in
      let jpeg := imencode env ".jpg" frame encode_param in
      wfile_write (encode ("--frame" ++ crlf)) ;;
      send_header "Content-type" "image/jpeg" ;;
      send_header "Content-length" (str_nat (List.length jpeg)) ;;
      end_headers ;;
      wfile_write jpeg ;;
      wfile_write (encode crlf)
  end.

(** [while True:] has no exit of its own.  [fuel] is the number of
    iterations left before the process is stopped from outside, at
    which point the stopping exception surfaces in the loop (between
    two iterations: a stop in the middle of an iteration is not
    modelled).  Each iteration advances the clock by one step. *)
Fixpoint stream_loop (fuel : nat) : M Handler unit :=
  match fuel with
  | O => raise (stop_exn (stop_by env))
  | S fuel' => stream_iteration ;; in_proc tick ;; stream_loop fuel'
  end.

Definition do_GET : M Handler unit :=
  self <- get ;;
  if String.eqb (path self) "/" then
    send_response 200 ;;
    send_header "Content-type" "text/html" ;;
    end_headers ;;
    let camera_info := camera_info (server self) in
    let camera_title :=
      name camera_info ++ " (" ++ resolution camera_info ++ ")" in
    wfile_write (encode (viewer_page env camera_title))
  else if String.eqb (path self) "/stream" then
    send_response 200 ;;
    send_header "Content-type" "multipart/x-mixed-replace; boundary=frame" ;;
    end_headers ;;
    try_except
      (stream_loop (stop_after env - clock (proc self)))
      is_Exception
      (fun e => in_proc (print ("Streaming error: " ++ exn_message e)))
  else ret tt.

(** *** The listener: [HTTPServer] is [socketserver.TCPServer]

    [serve_forever] takes one connection at a time and runs its handler
    to completion in the calling thread before it accepts the next one.
    An [Exception] escaping a handler is reported by the server and the
    loop carries on; anything else ends [serve_forever]. *)

Definition new_handler (srv : Server) (c : Connection) (p : Proc) : Handler :=
  {| server := srv; path := conn_path c;
     request_version := conn_version c;
     headers_buffer := []; sent := [];
     patience := conn_patience c; proc := p |}.

Definition close_request (self : Handler) : Proc :=
  {| caps := caps (proc self); trace := trace (proc self);
     clock := clock (proc self);
     wire := wire (proc self) ++ [sent self] |}.

Definition handle_request (srv : Server) (c : Connection) : M Proc unit :=
  fun p =>
    match do_GET (new_handler srv c p) with
    | (Ok _, self') => (Ok tt, close_request self')
    | (Raise e, self') =>
        if is_Exception e then (Ok tt, close_request self')
        else (Raise e, close_request self')
    end.

Fixpoint serve_requests (srv : Server) (conns : list Connection)
  : M Proc unit :=
  match conns with
  | [] => raise (stop_exn (stop_by env))     (* idle until stopped *)
  | c :: rest =>
      p <- get ;;
      if (stop_after env <=? clock p)%nat then raise (stop_exn (stop_by env))
      else tick ;; handle_request srv c ;; serve_requests srv rest
  end.

Definition serve_forever (srv : Server) : M Proc unit :=
  log EvServe ;;
  serve_requests srv (incoming env).

Definition HTTPServer (ip : string) (port : Z) : M Proc unit :=
  if bind_ok env then log (EvBind ip port) else raise OSError.

(** *** main (lines 230-269) *)

Fixpoint print_sources (i : nat) (sources : list CameraInfo) : M Proc unit :=
  match sources with
  | [] => ret tt
  | source :: rest =>
      print (str_nat i ++ ": " ++ name source ++ " (" ++ resolution source
             ++ ") - " ++ backend source) ;;
      print_sources (S i) rest
  end.

Definition input (prompt : string) : M Proc string :=
  log (EvInput prompt) ;;
  match stdin_line env with
  | Some line => ret line
  | None => raise EOFError
  end.

(** Lines 241-245. *)
Definition select_source (sources : list CameraInfo) : M Proc CameraInfo :=
  if (1 <? List.length sources)%nat then
    line <- input (nl ++ "Select video source number: ") ;;
    selected_idx <- lift_result (py_int line) ;;
    lift_result (py_getitem sources selected_idx)
  else lift_result (py_getitem sources 0).

Definition is_KeyboardInterrupt (e : exn) : bool :=
  match e with KeyboardInterrupt => true | _ => false end.

(** Lines 247-269, once the source is selected. *)
Definition serve_selected (selected_source : CameraInfo) : M Proc unit :=
  print (nl ++ "Using: " ++ name selected_source) ;;
  let local_ip := get_local_ip in
  let port := 8000 in
  cap <- VideoCapture (id selected_source) ;;
  cap_set cap CAP_PROP_FRAME_WIDTH 1920 ;;
  cap_set cap CAP_PROP_FRAME_HEIGHT 1080 ;;
  HTTPServer local_ip port ;;
  let server := {| video_source := cap; camera_info := selected_source |} in
  print (nl ++ "Streaming video at: http://" ++ local_ip ++ ":" ++ str_Z port) ;;
  print "Press Ctrl+C to stop the server" ;;
  try_finally
    (try_except (serve_forever server) is_KeyboardInterrupt (fun _ => ret tt))
    (cap_release cap ;; log EvServerClose).

(** Lines 241-269, entered with a non-empty list of sources. *)
Definition start_server (sources : list CameraInfo) : M Proc unit :=
  selected_source <- select_source sources ;;
  serve_selected selected_source.

Definition main : M Proc unit :=
  sources <- list_video_sources ;;
  match sources with
  | [] => print "No video sources found!"        (* return *)
  | _ :: _ =>
      print (nl ++ "Available video sources:") ;;
      print_sources 0 sources ;;
      start_server sources
  end.

End Program.

(* ================================================================== *)
(** ** Vocabulary of the statements *)
(* ================================================================== *)

Definition option_list {A : Type} (o : option A) : list A :=
  match o with Some a => [a] | None => [] end.

(** [probe(i)]: the value [get_camera_info i] returns. *)
Definition probe (env : Env) (i : Z) : option CameraInfo :=
  match fst (get_camera_info env i init) with
  | Ok info => info
  | Raise _ => None
  end.

(** The capture object a probe of device [i] leaves behind, and the
    events of that probe when its object has handle [h]. *)
Definition probed_cap (env : Env) (i : Z) : Capture :=
  {| cap_source := i; cap_open := false;
     cap_pos := if hw_opens env i then 1%nat else 0%nat |}.

Definition probe_events (env : Env) (h : nat) (i : Z) : list event :=
  if hw_opens env i then [EvCapture h i; EvRead h; EvRelease h]
  else [EvCapture h i].

Fixpoint probe_trace (env : Env) (h : nat) (indices : list Z) : list event :=
  match indices with
  | [] => []
  | i :: rest => probe_events env h i ++ probe_trace env (S h) rest
  end.

(** The device indices of the capture objects constructed, in order. *)
Fixpoint captured (tr : list event) : list Z :=
  match tr with
  | [] => []
  | EvCapture _ i :: rest => i :: captured rest
  | _ :: rest => captured rest
  end.

(** An event that concerns a capture object with handle below [n]. *)
Definition on_handle_below (n : nat) (e : event) : Prop :=
  match e with
  | EvCapture h _ | EvRead h | EvRelease h => (h < n)%nat
  | _ => False
  end.

(** The client still accepts [k] more writes. *)
Definition accepts (pt : option nat) (k : nat) : Prop :=
  match pt with
  | None => True
  | Some m => (k <= m)%nat
  end.

Definition spend (k : nat) (pt : option nat) : option nat :=
  match pt with
  | None => None
  | Some m => Some (m - k)%nat
  end.

(** One part of the multipart body, for a given frame. *)
Definition segment (env : Env) (frame : Frame) : list byte :=
  let jpeg := imencode env ".jpg" frame [IMWRITE_JPEG_QUALITY; 95] in
  (encode ("--frame" ++ crlf)
   ++ encode ("Content-type: image/jpeg" ++ crlf)
   ++ encode ("Content-length: " ++ str_nat (List.length jpeg) ++ crlf)
   ++ encode crlf
   ++ jpeg
   ++ encode crlf)%list.

(** The header block that opens the response on the stream route. *)
Definition stream_preamble (env : Env) : list byte :=
  (List.concat (response_head env 200)
   ++ encode ("Content-type: multipart/x-mixed-replace; boundary=frame" ++ crlf)
   ++ encode crlf)%list.

(** The parts owed for [fuel] successive polls of capture object [h],
    starting in process state [p]: one per poll that obtains a frame. *)
Fixpoint segments (env : Env) (h : nat) (fuel : nat) (p : Proc) : list byte :=
  match fuel with
  | O => []
  | S fuel' =>
      match cap_read env h p with
      | (Ok (Some frame), p') =>
          (segment env frame ++ segments env h fuel' (snd (tick p')))%list
      | (_, p') => segments env h fuel' (snd (tick p'))
      end
  end.

(** The handler after one more step of the clock, and after one poll of
    the shared capture object. *)
Definition ticked (self : Handler) : Handler :=
  with_proc (snd (tick (proc self))) self.

Definition after_poll (env : Env) (self : Handler) : Handler :=
  with_proc (snd (cap_read env (video_source (server self)) (proc self))) self.


(** The events request handlers can cause. *)
Definition quiet (e : event) : Prop :=
  match e with
  | EvRead _ | EvPrint _ => True
  | _ => False
  end.

(** [p'] is [p] after some activity of one request handler: more polls
    and prints, the same capture objects, nothing new on the wire log. *)
Definition polled_from (p p' : Proc) : Prop :=
  exists mid,
    trace p' = (trace p ++ mid)%list /\ Forall quiet mid /\
    List.length (caps p') = List.length (caps p) /\
    wire p' = wire p.

(** [p'] is [p] after the listener served some connections. *)
Definition served_from (p p' : Proc) : Prop :=
  exists mid,
    trace p' = (trace p ++ mid)%list /\ Forall quiet mid /\
    List.length (caps p') = List.length (caps p).

Definition handler_polls {A : Type} (c : M Handler A) : Prop :=
  forall self r self',
    c self = (r, self') -> polled_from (proc self) (proc self').



(** What enumeration finds and the process state it leaves, from the
    initial state. *)
Definition found (env : Env) : list CameraInfo :=
  flat_map (fun i => option_list (probe env i)) (range 10).

Definition probed (env : Env) : Proc :=
  {| caps := map (probed_cap env) (range 10);
     trace := probe_trace env 0 (range 10);
     clock := 0%nat; wire := [] |}.

(** The lines of the menu (lines 237-239). *)
Fixpoint menu_lines (i : nat) (sources : list CameraInfo) : list event :=
  match sources with
  | [] => []
  | source :: rest =>
      EvPrint (str_nat i ++ ": " ++ name source ++ " (" ++ resolution source
               ++ ") - " ++ backend source)
      :: menu_lines (S i) rest
  end.

Definition menu (sources : list CameraInfo) : list event :=
  EvPrint (nl ++ "Available video sources:") :: menu_lines 0 sources.

Definition add_events (evs : list event) (p : Proc) : Proc :=
  {| caps := caps p; trace := (trace p ++ evs)%list;
     clock := clock p; wire := wire p |}.

(** Events that can precede the opening of the streaming capture
    object: probes (handles 0 to 9) and console traffic. *)
Definition startup (e : event) : Prop :=
  match e with
  | EvCapture h _ | EvRead h | EvRelease h => (h < 10)%nat
  | EvPrint _ | EvInput _ => True
  | _ => False
  end.

Definition is_input (e : event) : Prop :=
  match e with EvInput _ => True | _ => False end.

Definition is_print (e : event) : Prop :=
  match e with EvPrint _ => True | _ => False end.

(** The process state in which [serve_forever] is entered, for the
    selected source [c] and the state [p] after selection. *)
Definition opened_for (env : Env) (c : CameraInfo) (p : Proc) : Proc :=
  let h := List.length (caps p) in
  {| caps := (caps p ++ [{| cap_source := id c;
                            cap_open := hw_opens env (id c);
                            cap_pos := 0%nat |}])%list;
     trace := (trace p ++ [EvPrint (nl ++ "Using: " ++ name c);
                           EvCapture h (id c);
                           EvSet h CAP_PROP_FRAME_WIDTH 1920;
                           EvSet h CAP_PROP_FRAME_HEIGHT 1080])%list;
     clock := clock p; wire := wire p |}.

Definition announced (env : Env) : list event :=
  [EvBind (get_local_ip env) 8000;
   EvPrint (nl ++ "Streaming video at: http://" ++ get_local_ip env ++ ":"
            ++ str_Z 8000);
   EvPrint "Press Ctrl+C to stop the server";
   EvServe].

Definition closed_down (h : nat) (p : Proc) : Proc :=
  {| caps := update_at h (fun c => {| cap_source := cap_source c;
                                      cap_open := false;
                                      cap_pos := cap_pos c |}) (caps p);
     trace := (trace p ++ [EvRelease h; EvServerClose])%list;
     clock := clock p; wire := wire p |}.

(** The same world, stopped after [t] handler steps. *)
Definition set_stop_after (t : nat) (env : Env) : Env :=
  {| hw_opens := hw_opens env; hw_width := hw_width env;
     hw_height := hw_height env; hw_backend := hw_backend env;
     hw_frames := hw_frames env; imencode := imencode env;
     wmi_names := wmi_names env; stdin_line := stdin_line env;
     udp_local_addr := udp_local_addr env; bind_ok := bind_ok env;
     response_head := response_head env; viewer_page := viewer_page env;
     incoming := incoming env; stop_after := t; stop_by := stop_by env |}.

(** The outcome of lines 242-243 when the prompt is shown. *)
Definition selection (env : Env) (sources : list CameraInfo)
  : result CameraInfo :=
  match stdin_line env with
  | None => Raise EOFError
  | Some line =>
      match py_int line with
      | Ok selected_idx => py_getitem sources selected_idx
      | Raise e => Raise e
      end
  end.

Definition prompt : string := nl ++ "Select video source number: ".

Definition closed (c : Capture) : Prop := cap_open c = false.

(* ================================================================== *)
(** ** Sample worlds *)
(* ================================================================== *)

Definition frame0 : Frame :=
  {| rows := 1; cols := 1; channels := 3;
     samples := [Byte.x10; Byte.x20; Byte.x30] |}.

(** A stand-in for the encoder: a marker followed by the samples. *)
Definition sample_encoder (ext : string) (f : Frame) (params : list Z)
  : list byte :=
  (encode "JFIF" ++ samples f)%list.

Definition viewer_forever : Connection :=
  {| conn_path := "/stream"; conn_version := "HTTP/1.1";
     conn_patience := None |}.

Definition viewer_page_only : Connection :=
  {| conn_path := "/"; conn_version := "HTTP/1.1"; conn_patience := None |}.


Definition viewer_leaving : Connection :=
  {| conn_path := "/stream"; conn_version := "HTTP/1.1";
     conn_patience := Some 3%nat |}.

(** [cams] working cameras at indices [0 .. cams-1], each of which has
    a frame ready from poll number [warmup] on. *)
Definition sample_env (cams : Z) (warmup : nat) (line : option string)
    (conns : list Connection) (t : nat) : Env :=
  {| hw_opens := fun i => (0 <=? i) && (i <? cams);
     hw_width := fun _ => 640;
     hw_height := fun _ => 480;
     hw_backend := fun _ => "V4L2";
     hw_frames := fun i k =>
       if (0 <=? i) && (i <? cams) && (warmup <=? k)%nat
       then Some frame0 else None;
     imencode := sample_encoder;
     wmi_names := None;
     stdin_line := line;
     udp_local_addr := Some "192.168.1.7";
     bind_ok := true;
     response_head := fun _ => [encode ("HTTP/1.0 200 OK" ++ crlf)];
     viewer_page := fun title => "<html>" ++ title ++ "</html>";
     incoming := conns;
     stop_after := t;
     stop_by := StopInterrupt |}.

Definition env_no_camera : Env := sample_env 0 0 None [] 0.
Definition env_one_camera : Env :=
  sample_env 1 0 None [viewer_forever; viewer_page_only] 3.
Definition env_two_cameras : Env := sample_env 2 0 (Some "-1") [] 0.
Definition env_leaving : Env :=
  sample_env 1 0 None [viewer_leaving; viewer_page_only] 5.

(** A process state with one open capture object, handle 0. *)
Definition proc_live : Proc :=
  {| caps := [{| cap_source := 0; cap_open := true; cap_pos := 0%nat |}];
     trace := []; clock := 0%nat; wire := [] |}.

Definition server0 : Server :=
  {| video_source := 0%nat;
     camera_info := {| id := 0; name := "Camera 0";
                       resolution := "640x480"; backend := "V4L2" |} |}.

(* ================================================================== *)
(** ** Further vocabulary *)
(* ================================================================== *)


(** The only exceptions a computation lets out are a failed write and
    the stopping of the process. *)
Definition handler_raises (env : Env) {A : Type} (c : M Handler A) : Prop :=
  forall self e self',
    c self = (Raise e, self') ->
    e = BrokenPipeError \/ e = stop_exn (stop_by env).

(** The capture objects of [p'] are those of [p], each on the same
    device and holding it or not as before. *)
Definition same_devices (p p' : Proc) : Prop :=
  map cap_source (caps p') = map cap_source (caps p) /\
  map cap_open (caps p') = map cap_open (caps p).

Definition handler_keeps_devices {A : Type} (c : M Handler A) : Prop :=
  forall self r self',
    c self = (r, self') -> same_devices (proc self) (proc self').


(** The line of the menu for the source at position [i]. *)
Definition menu_line (i : nat) (source : CameraInfo) : event :=
  EvPrint (str_nat i ++ ": " ++ name source ++ " (" ++ resolution source
           ++ ") - " ++ backend source).

(** The device works: it opens and its first poll yields a frame. *)
Definition works (env : Env) (i : Z) : Prop :=
  hw_opens env i = true /\ hw_frames env i 0%nat <> None.

(** A world with a named USB camera in the device registry. *)
Definition env_named_cameras : Env :=
  {| hw_opens := hw_opens env_two_cameras;
     hw_width := hw_width env_two_cameras;
     hw_height := hw_height env_two_cameras;
     hw_backend := hw_backend env_two_cameras;
     hw_frames := hw_frames env_two_cameras;
     imencode := imencode env_two_cameras;
     wmi_names := Some ["Keyboard"; "USB Video Camera"; "USB Camera B"];
     stdin_line := Some "1";
     udp_local_addr := None;
     bind_ok := false;
     response_head := response_head env_two_cameras;
     viewer_page := viewer_page env_two_cameras;
     incoming := [];
     stop_after := 0%nat;
     stop_by := StopExit |}.

(** The one-camera world stopped by something other than an interrupt. *)
Definition env_exit : Env :=
  {| hw_opens := hw_opens env_leaving;
     hw_width := hw_width env_leaving;
     hw_height := hw_height env_leaving;
     hw_backend := hw_backend env_leaving;
     hw_frames := hw_frames env_leaving;
     imencode := imencode env_leaving;
     wmi_names := None;
     stdin_line := None;
     udp_local_addr := None;
     bind_ok := true;
     response_head := response_head env_leaving;
     viewer_page := viewer_page env_leaving;
     incoming := incoming env_leaving;
     stop_after := 5%nat;
     stop_by := StopExit |}.


(* ================================================================== *)
(** * Properties *)
(* ================================================================== *)

Local Open Scope list_scope.

(* ================================================================== *)
(** ** The store of capture objects *)
(* ================================================================== *)

Lemma nth_error_snoc {A : Type} (l : list A) (x : A) :
  nth_error (l ++ [x])%list (List.length l) = Some x.
Proof.
  induction l as [|y l IH]; simpl; [reflexivity | exact IH].
Qed.

Lemma update_at_snoc {A : Type} (f : A -> A) (l : list A) (x : A) :
  update_at (List.length l) f (l ++ [x])%list = (l ++ [f x])%list.
Proof.
  induction l as [|y l IH]; simpl; [reflexivity | now rewrite IH].
Qed.

Lemma update_at_length {A : Type} (f : A -> A) (l : list A) (h : nat) :
  List.length (update_at h f l) = List.length l.
Proof.
  revert h; induction l as [|y l IH]; intros [|h]; simpl; auto.
Qed.

(* ================================================================== *)
(** ** Device prober *)
(* ================================================================== *)

Section Prober.

Variable env : Env.

(** One probe, run from any process state: its value and the state it
    leaves. *)
Lemma get_camera_info_run (i : Z) (p : Proc) :
  get_camera_info env i p =
  (Ok (probe env i),
   {| caps := caps p ++ [probed_cap env i];
      trace := trace p ++ probe_events env (List.length (caps p)) i;
      clock := clock p; wire := wire p |}).
Proof.
  unfold probe, get_camera_info, probed_cap, probe_events.
  unfold bind, VideoCapture, isOpened, lookup_cap, ret; simpl.
  rewrite nth_error_snoc; simpl.
  destruct (hw_opens env i) eqn:Hopen; simpl.
  - unfold cap_get, getBackendName, cap_read, cap_release, lookup_cap, log,
      modify, bind, ret, set_caps; simpl.
    rewrite !nth_error_snoc; simpl.
    rewrite ?Hopen; simpl.
    rewrite !update_at_snoc; simpl.
    rewrite <- !app_assoc; simpl.
    destruct (hw_frames env i 0%nat) as [fr|]; simpl.
    + destruct (match wmi_names env with
                | Some names => find usb_camera names
                | None => None
                end); reflexivity.
    + reflexivity.
  - reflexivity.
Qed.

Lemma probe_present_iff (i : Z) :
  (exists c, probe env i = Some c) <->
  (hw_opens env i = true /\ hw_frames env i 0%nat <> None).
Proof.
  unfold probe, get_camera_info.
  unfold bind, VideoCapture, isOpened, lookup_cap, ret; simpl.
  destruct (hw_opens env i) eqn:Hopen; simpl.
  - unfold cap_get, getBackendName, cap_read, cap_release, lookup_cap, log,
      modify, bind, ret, set_caps; simpl.
    rewrite ?Hopen; simpl.
    destruct (hw_frames env i 0%nat) as [fr|]; simpl.
    + destruct (match wmi_names env with
                | Some names => find usb_camera names
                | None => None
                end); simpl; split; intros;
        try (split; [reflexivity | discriminate]); eauto.
    + split; [intros [c Hc]; discriminate | intros [_ H]; now elim H].
  - split; [intros [c Hc]; discriminate | intros [H _]; discriminate].
Qed.

Lemma probe_id (i : Z) (c : CameraInfo) : probe env i = Some c -> id c = i.
Proof.
  unfold probe, get_camera_info.
  unfold bind, VideoCapture, isOpened, lookup_cap, ret; simpl.
  destruct (hw_opens env i) eqn:Hopen; simpl; [|discriminate].
  unfold cap_get, getBackendName, cap_read, cap_release, lookup_cap, log,
    modify, bind, ret, set_caps; simpl.
  rewrite ?Hopen; simpl.
  destruct (hw_frames env i 0%nat) as [fr|]; simpl; [|discriminate].
  destruct (match wmi_names env with
            | Some names => find usb_camera names
            | None => None
            end); simpl; intros H; inversion H; reflexivity.
Qed.

Lemma probe_each_run (indices : list Z) :
  forall (acc : list CameraInfo) (p : Proc),
    probe_each env indices acc p =
    (Ok (acc ++ flat_map (fun i => option_list (probe env i)) indices),
     {| caps := caps p ++ map (probed_cap env) indices;
        trace := trace p ++ probe_trace env (List.length (caps p)) indices;
        clock := clock p; wire := wire p |}).
Proof.
  induction indices as [|i rest IH]; intros acc p; simpl.
  - unfold ret. rewrite !app_nil_r. destruct p; reflexivity.
  - unfold bind. rewrite get_camera_info_run.
    destruct (probe env i) as [c|]; rewrite IH; simpl;
      rewrite ?length_app, <- ?app_assoc; simpl;
      rewrite ?Nat.add_1_r; reflexivity.
Qed.

Lemma captured_app (a b : list event) :
  captured (a ++ b)%list = (captured a ++ captured b)%list.
Proof.
  induction a as [|e a IH]; simpl; [reflexivity|].
  destruct e; simpl; rewrite ?IH; reflexivity.
Qed.

Lemma captured_probe_trace (indices : list Z) :
  forall h, captured (probe_trace env h indices) = indices.
Proof.
  induction indices as [|i rest IH]; intros h; simpl; [reflexivity|].
  rewrite captured_app, IH. unfold probe_events.
  destruct (hw_opens env i); reflexivity.
Qed.

Lemma flat_map_option_length {A B : Type} (f : A -> option B) (l : list A) :
  (List.length (flat_map (fun a => option_list (f a)) l) <= List.length l)%nat.
Proof.
  induction l as [|a l IH]; simpl; [lia|].
  rewrite length_app. destruct (f a); simpl; lia.
Qed.

Lemma probe_trace_handles (indices : list Z) :
  forall h,
    Forall (on_handle_below (h + List.length indices)) (probe_trace env h indices).
Proof.
  induction indices as [|i rest IH]; intros h; simpl; [constructor|].
  apply Forall_app; split.
  - unfold probe_events. destruct (hw_opens env i);
      repeat constructor; simpl; lia.
  - replace (h + S (List.length rest))%nat with (S h + List.length rest)%nat by lia.
    apply IH.
Qed.

(** C2. [probe(i)] yields a CameraInfo exactly when the device opens and
    its first frame can be read, and is absent otherwise (it never
    raises, whatever the process state); [list_video_sources] constructs
    capture objects for the indices 0, 1, ..., 9 in this order and
    returns the present results in that order, hence at most ten. *)
Theorem enumerate_probes_in_order :
  (forall i p, fst (get_camera_info env i p) = Ok (probe env i)) /\
  (forall i, (exists c, probe env i = Some c /\ id c = i) <->
             (hw_opens env i = true /\ hw_frames env i 0%nat <> None)) /\
  (forall p,
      let sources := flat_map (fun i => option_list (probe env i))
                              [0; 1; 2; 3; 4; 5; 6; 7; 8; 9] in
      fst (list_video_sources env p) = Ok sources /\
      captured (trace (snd (list_video_sources env p))) =
        captured (trace p) ++ [0; 1; 2; 3; 4; 5; 6; 7; 8; 9] /\
      (List.length sources <= 10)%nat).
Proof.
  split; [|split].
  - intros i p. rewrite get_camera_info_run. reflexivity.
  - intros i. rewrite <- probe_present_iff. split.
    + intros [c [Hc _]]. eauto.
    + intros [c Hc]. exists c. split; [exact Hc | now apply probe_id].
  - intros p. unfold list_video_sources. rewrite probe_each_run.
    cbn [fst snd trace app]. rewrite captured_app, captured_probe_trace.
    change (range 10) with [0; 1; 2; 3; 4; 5; 6; 7; 8; 9].
    repeat split.
    apply (flat_map_option_length (probe env) [0; 1; 2; 3; 4; 5; 6; 7; 8; 9]).
Qed.


End Prober.

(* ================================================================== *)
(** ** Request handler *)
(* ================================================================== *)

Section Streaming.

Variable env : Env.

Lemma stop_is_not_Exception : is_Exception (stop_exn (stop_by env)) = false.
Proof. destruct (stop_by env); reflexivity. Qed.

(** A poll never raises, and leaves exactly one event. *)
Lemma cap_read_run (h : nat) (p : Proc) :
  exists frame p',
    cap_read env h p = (Ok frame, p') /\
    trace p' = trace p ++ [EvRead h] /\
    List.length (caps p') = List.length (caps p) /\
    clock p' = clock p /\ wire p' = wire p.
Proof.
  unfold cap_read, lookup_cap, log, modify, bind, ret, set_caps; simpl.
  destruct (nth_error (caps p) h) as [c|]; simpl.
  - destruct (cap_open c); simpl; eexists; eexists;
      (split; [reflexivity|]); simpl; rewrite ?update_at_length; auto.
  - eexists; eexists; (split; [reflexivity|]); simpl; auto.
Qed.

(** An iteration whose poll obtains nothing: [continue]. *)
Lemma stream_iteration_empty (self : Handler) :
  fst (cap_read env (video_source (server self)) (proc self)) = Ok None ->
  stream_iteration env self = (Ok tt, after_poll env self).
Proof.
  intros H. unfold stream_iteration, after_poll, bind, get, in_proc.
  destruct (cap_read env (video_source (server self)) (proc self)) as [r p'].
  simpl in H; subst r. reflexivity.
Qed.

(** An iteration whose poll obtains a frame. *)
Lemma stream_iteration_frame (self : Handler) (frame : Frame) :
  fst (cap_read env (video_source (server self)) (proc self)) = Ok (Some frame) ->
  versioned self = true ->
  headers_buffer self = [] ->
  accepts (patience self) 4 ->
  stream_iteration env self =
  (Ok tt,
   {| server := server self; path := path self;
      request_version := request_version self;
      headers_buffer := [];
      sent := sent self ++ segment env frame;
      patience := spend 4 (patience self);
      proc := snd (cap_read env (video_source (server self)) (proc self)) |}).
Proof.
  intros Hpoll Hver Hbuf Hacc.
  unfold stream_iteration, bind, get, in_proc.
  destruct (cap_read env (video_source (server self)) (proc self)) as [r p'].
  simpl in Hpoll; subst r. cbn [snd].
  assert (Hv : forall s b st pt pr,
             versioned {| server := s; path := path self;
                          request_version := request_version self;
                          headers_buffer := b; sent := st; patience := pt;
                          proc := pr |} = true)
    by (intros; exact Hver).
  unfold send_header, end_headers, flush_headers, queue, modify, bind, get,
    ret, with_buffer, segment.
  destruct (patience self) as [[|[|[|[|m]]]]|] eqn:Hpat; simpl in Hacc; try lia;
    unfold wfile_write at 1, with_proc;
    cbn [patience headers_buffer request_version sent proc server path];
    rewrite ?Hpat, ?Hbuf;
    cbn [patience headers_buffer request_version sent proc server path];
    rewrite !Hv;
    unfold wfile_write;
    cbn [patience headers_buffer request_version sent proc server path spend
         app List.concat];
    rewrite ?app_nil_r, <- ?app_assoc;
    (f_equal; f_equal; simpl; rewrite ?Nat.sub_0_r; reflexivity).
Qed.


Lemma versioned_iff (self : Handler) :
  versioned self = true <-> request_version self <> "HTTP/0.9"%string.
Proof.
  unfold versioned.
  destruct (String.eqb_spec (request_version self) "HTTP/0.9"); simpl;
    split; intros; congruence.
Qed.




(** C10.  A GET for any path other than [/] and [/stream] falls through
    both branches: [do_GET] returns normally having queued no header
    line, written no byte to the client and touched nothing else. *)
Theorem other_paths_get_no_response (self : Handler) :
  path self <> "/"%string ->
  path self <> "/stream"%string ->
  do_GET env self = (Ok tt, self).
Proof.
  intros H1 H2. unfold do_GET, bind, get.
  destruct (String.eqb_spec (path self) "/"); [contradiction|].
  destruct (String.eqb_spec (path self) "/stream"); [contradiction|].
  reflexivity.
Qed.

End Streaming.

(* ================================================================== *)
(** ** What a request handler can do to the process *)
(* ================================================================== *)

Lemma polled_from_refl (p : Proc) : polled_from p p.
Proof.
  exists []. rewrite app_nil_r. repeat split. constructor.
Qed.

Lemma polled_from_trans (p q r : Proc) :
  polled_from p q -> polled_from q r -> polled_from p r.
Proof.
  intros (m1 & T1 & Q1 & C1 & W1) (m2 & T2 & Q2 & C2 & W2).
  exists (m1 ++ m2). rewrite T2, T1, app_assoc. repeat split.
  - apply Forall_app; split; assumption.
  - congruence.
  - congruence.
Qed.

Lemma hp_ret {A : Type} (a : A) : handler_polls (ret a).
Proof. intros self r self' H. inversion H; subst. apply polled_from_refl. Qed.

Lemma hp_raise {A : Type} (e : exn) : handler_polls (@raise Handler A e).
Proof. intros self r self' H. inversion H; subst. apply polled_from_refl. Qed.

Lemma hp_get : handler_polls (@get Handler).
Proof. intros self r self' H. inversion H; subst. apply polled_from_refl. Qed.

Lemma hp_bind {A B : Type} (c : M Handler A) (k : A -> M Handler B) :
  handler_polls c -> (forall a, handler_polls (k a)) ->
  handler_polls (bind c k).
Proof.
  intros Hc Hk self r self' H. unfold bind in H.
  destruct (c self) as [[a|e] s1] eqn:Hrun.
  - eapply polled_from_trans; [eapply Hc; eassumption | eapply Hk; eassumption].
  - inversion H; subst. eapply Hc; eassumption.
Qed.

Lemma hp_try_except {A : Type} (c : M Handler A) (catches : exn -> bool)
    (handler : exn -> M Handler A) :
  handler_polls c -> (forall e, handler_polls (handler e)) ->
  handler_polls (try_except c catches handler).
Proof.
  intros Hc Hh self r self' H. unfold try_except in H.
  destruct (c self) as [[a|e] s1] eqn:Hrun.
  - inversion H; subst. eapply Hc; eassumption.
  - destruct (catches e).
    + eapply polled_from_trans; [eapply Hc; eassumption | eapply Hh; eassumption].
    + inversion H; subst. eapply Hc; eassumption.
Qed.

Lemma hp_modify (f : Handler -> Handler) :
  (forall self, proc (f self) = proc self) -> handler_polls (modify f).
Proof.
  intros Hf self r self' H. inversion H; subst. rewrite Hf.
  apply polled_from_refl.
Qed.

Lemma hp_in_proc {A : Type} (c : M Proc A) :
  (forall p r p', c p = (r, p') -> polled_from p p') ->
  handler_polls (in_proc c).
Proof.
  intros Hc self r self' H. unfold in_proc in H.
  destruct (c (proc self)) as [r1 p1] eqn:Hrun.
  inversion H; subst. simpl. eapply Hc; eassumption.
Qed.

Lemma hp_wfile_write (data : list byte) : handler_polls (wfile_write data).
Proof.
  intros self r self' H. unfold wfile_write in H.
  destruct (patience self) as [[|k]|]; inversion H; subst;
    apply polled_from_refl.
Qed.

Lemma polled_one_event (e : event) (p : Proc) :
  quiet e -> polled_from p (snd (log e p)).
Proof.
  intros He. exists [e]. simpl. repeat split. repeat constructor. exact He.
Qed.

Section Listener.

Variable env : Env.

Lemma hp_cap_read (h : nat) : handler_polls (in_proc (cap_read env h)).
Proof.
  apply hp_in_proc. intros p r p' H.
  destruct (cap_read_run env h p) as (fr & q & Hrd & Htr & Hc & _ & Hw).
  rewrite Hrd in H. inversion H; subst.
  exists [EvRead h]. repeat split; auto. repeat constructor.
Qed.

Lemma hp_tick : handler_polls (in_proc tick).
Proof.
  apply hp_in_proc. intros p r p' H. inversion H; subst.
  exists []. simpl. rewrite app_nil_r. repeat split. constructor.
Qed.

Lemma hp_print (s : string) : handler_polls (in_proc (print s)).
Proof.
  apply hp_in_proc. intros p r p' H. inversion H; subst.
  apply (polled_one_event (EvPrint s) p). exact I.
Qed.

Lemma hp_queue (lines : list (list byte)) : handler_polls (queue lines).
Proof. apply hp_modify. reflexivity. Qed.

Ltac polls :=
  repeat first
    [ apply hp_ret | apply hp_raise | apply hp_get | apply hp_queue
    | apply hp_wfile_write | apply hp_cap_read | apply hp_tick
    | apply hp_print
    | apply hp_modify; reflexivity
    | apply hp_bind; [|intros]
    | match goal with
      | |- handler_polls (if ?b then _ else _) => destruct b
      | |- handler_polls (match ?x with _ => _ end) => destruct x
      end ].

Lemma hp_send_response (code : Z) : handler_polls (send_response env code).
Proof. unfold send_response. polls. Qed.

Lemma hp_send_header (k v : string) : handler_polls (send_header k v).
Proof. unfold send_header. polls. Qed.

Lemma hp_end_headers : handler_polls end_headers.
Proof. unfold end_headers, flush_headers. polls. Qed.

Lemma hp_stream_iteration : handler_polls (stream_iteration env).
Proof.
  unfold stream_iteration, send_header, end_headers, flush_headers.
  cbv zeta. polls.
Qed.

Lemma hp_stream_loop (fuel : nat) : handler_polls (stream_loop env fuel).
Proof.
  induction fuel as [|fuel IH]; simpl.
  - apply hp_raise.
  - apply hp_bind; [apply hp_stream_iteration | intros _].
    apply hp_bind; [apply hp_tick | intros _]. exact IH.
Qed.

Lemma hp_do_GET : handler_polls (do_GET env).
Proof.
  unfold do_GET, send_response, send_header, end_headers, flush_headers.
  cbv zeta. polls.
  apply hp_try_except; [apply hp_stream_loop | intros e; apply hp_print].
Qed.

(** One request: the handler's effects, one more entry on the wire log,
    and no [Exception] gets past the listener. *)
Lemma handle_request_shape (srv : Server) (c : Connection) (p : Proc) :
  served_from p (snd (handle_request env srv c p)) /\
  (exists bytes, wire (snd (handle_request env srv c p)) = wire p ++ [bytes]) /\
  (forall e, fst (handle_request env srv c p) = Raise e ->
             is_Exception e = false /\
             fst (do_GET env (new_handler srv c p)) = Raise e).
Proof.
  unfold handle_request.
  destruct (do_GET env (new_handler srv c p)) as [r self'] eqn:Hrun.
  destruct (hp_do_GET _ _ _ Hrun) as (mid & Ht & Hq & Hc & Hw).
  simpl in Ht, Hc, Hw.
  assert (Hs : served_from p (close_request self'))
    by (exists mid; simpl; auto).
  assert (Hwire : exists bytes, wire (close_request self') = wire p ++ [bytes])
    by (exists (sent self'); simpl; now rewrite Hw).
  destruct r as [u|e]; simpl.
  - split; [auto | split; [auto | intros e0 H0; discriminate]].
  - destruct (is_Exception e) eqn:He; simpl.
    + split; [auto | split; [auto | intros e0 H0; discriminate]].
    + split; [auto | split; [auto|]].
      intros e0 H0. inversion H0; subst. auto.
Qed.

Lemma served_from_refl (p : Proc) : served_from p p.
Proof. exists []. rewrite app_nil_r. repeat split. constructor. Qed.

Lemma served_from_trans (p q r : Proc) :
  served_from p q -> served_from q r -> served_from p r.
Proof.
  intros (m1 & T1 & Q1 & C1) (m2 & T2 & Q2 & C2).
  exists (m1 ++ m2). rewrite T2, T1, app_assoc. repeat split.
  - apply Forall_app; split; assumption.
  - congruence.
Qed.

Lemma serve_requests_served (srv : Server) (conns : list Connection) :
  forall p, served_from p (snd (serve_requests env srv conns p)).
Proof.
  induction conns as [|c rest IH]; intros p; simpl.
  - apply served_from_refl.
  - unfold bind at 1, get at 1.
    destruct (stop_after env <=? clock p)%nat; [apply served_from_refl|].
    unfold bind at 1, tick at 1, modify.
    unfold bind at 1.
    match goal with |- context [handle_request env srv c ?q] =>
      pose proof (handle_request_shape srv c q) as (Hs & _ & _);
      destruct (handle_request env srv c q) as [[u|e] p1]
    end; simpl in Hs.
    + eapply served_from_trans; [|apply IH].
      destruct Hs as (mid & Ht & Hq & Hc). exists mid. simpl in *. auto.
    + simpl. destruct Hs as (mid & Ht & Hq & Hc). exists mid. simpl in *. auto.
Qed.

(** A viewer that never disconnects keeps its handler in the loop until
    the process is stopped. *)
Lemma stream_iteration_connected (self : Handler) :
  patience self = None ->
  exists self', stream_iteration env self = (Ok tt, self') /\
                patience self' = None.
Proof.
  intros Hpat. unfold stream_iteration, bind at 1, get at 1, bind at 1, in_proc.
  destruct (cap_read_run env (video_source (server self)) (proc self))
    as (frame & p' & Hrd & _).
  rewrite Hrd. destruct frame as [frame|].
  - unfold send_header, end_headers, flush_headers, queue, modify, bind, get,
      ret, with_buffer, with_proc, wfile_write, versioned.
    cbn [patience headers_buffer request_version sent proc server path].
    rewrite Hpat.
    destruct (negb (String.eqb (request_version self) "HTTP/0.9")) eqn:Hv;
      repeat (cbn [patience headers_buffer request_version sent proc server
                   path];
              rewrite ?Hv, ?Hpat);
      eexists; split; reflexivity.
  - eexists; split; [reflexivity | exact Hpat].
Qed.

Lemma stream_loop_held (fuel : nat) :
  forall self,
    patience self = None ->
    fst (stream_loop env fuel self) = Raise (stop_exn (stop_by env)).
Proof.
  induction fuel as [|fuel IH]; intros self Hpat; simpl; [reflexivity|].
  unfold bind at 1.
  destruct (stream_iteration_connected self Hpat) as (s1 & Hrun & Hp1).
  rewrite Hrun. unfold bind at 1, in_proc at 1, tick at 1, modify.
  apply IH. exact Hp1.
Qed.

Lemma do_GET_stream_held (self : Handler) :
  path self = "/stream"%string ->
  patience self = None ->
  fst (do_GET env self) = Raise (stop_exn (stop_by env)).
Proof.
  intros Hpath Hpat. unfold do_GET, bind at 1, get at 1.
  rewrite Hpath.
  change (String.eqb "/stream" "/") with false.
  change (String.eqb "/stream" "/stream") with true. cbv iota.
  unfold send_response, send_header, end_headers, flush_headers, queue,
    modify, bind, get, ret, with_buffer, wfile_write, versioned, try_except.
  destruct (negb (String.eqb (request_version self) "HTTP/0.9")) eqn:Hv;
    repeat (cbn [patience headers_buffer request_version sent proc server
                 path];
            rewrite ?Hv, ?Hpat);
    match goal with |- context [stream_loop env ?f ?s] =>
      pose proof (stream_loop_held f s ltac:(first [exact Hpat | reflexivity])) as Hheld;
      destruct (stream_loop env f s) as [r s'] end;
    simpl in Hheld; rewrite Hheld;
    rewrite stop_is_not_Exception; reflexivity.
Qed.

Lemma serve_requests_step
    (srv : Server) (c : Connection) (rest : list Connection) (p : Proc) :
  (clock p < stop_after env)%nat ->
  serve_requests env srv (c :: rest) p =
  match handle_request env srv c (snd (tick p)) with
  | (Ok _, p1) => serve_requests env srv rest p1
  | (Raise e, p1) => (Raise e, p1)
  end.
Proof.
  intros Hlive. cbn [serve_requests]. unfold bind, get.
  destruct (Nat.leb_spec (stop_after env) (clock p)); [lia|].
  unfold tick, modify. cbn [snd]. reflexivity.
Qed.

Lemma handle_request_held (srv : Server) (c : Connection) (p : Proc) :
  conn_path c = "/stream"%string ->
  conn_patience c = None ->
  fst (handle_request env srv c p) = Raise (stop_exn (stop_by env)).
Proof.
  intros Hpath Hpat. unfold handle_request.
  pose proof (do_GET_stream_held (new_handler srv c p) Hpath Hpat) as Hheld.
  destruct (do_GET env (new_handler srv c p)) as [r s'].
  simpl in Hheld. subst r. rewrite stop_is_not_Exception. reflexivity.
Qed.

(** C9 (as amended).  The listener handles one connection at a time, in
    its own thread of control.  While the process has not been stopped,
    [serve_forever] runs the handler of the connection at the head of
    the queue to its end before it turns to the next one: if the handler
    returns, or fails with an [Exception] (a failed write in one
    viewer's loop is such a failure), the following connections are
    served from the state it left; only the stopping of the process
    ends a handler otherwise, and then nobody else is served.  A viewer
    of the stream route who never disconnects is ended only that way. *)
Theorem one_connection_at_a_time
    (srv : Server) (c : Connection) (rest : list Connection) (p : Proc) :
  (clock p < stop_after env)%nat ->
  let run := handle_request env srv c (snd (tick p)) in
  match fst run with
  | Ok _ =>
      serve_requests env srv (c :: rest) p =
      serve_requests env srv rest (snd run)
  | Raise e =>
      is_Exception e = false /\
      serve_requests env srv (c :: rest) p = (Raise e, snd run)
  end /\
  (conn_path c = "/stream"%string -> conn_patience c = None ->
   fst run = Raise (stop_exn (stop_by env))).
Proof.
  intros Hlive run. split.
  - rewrite (serve_requests_step srv c rest p Hlive). subst run.
    pose proof (handle_request_shape srv c (snd (tick p))) as (_ & _ & Hexn).
    destruct (handle_request env srv c (snd (tick p))) as [[u|e] p1]; simpl.
    + reflexivity.
    + split; [apply (Hexn e eq_refl) | reflexivity].
  - intros Hpath Hpat. subst run. now apply handle_request_held.
Qed.

End Listener.

(* ================================================================== *)
(** ** Startup and shutdown *)
(* ================================================================== *)

Section Main.

Variable env : Env.

Lemma list_video_sources_init :
  list_video_sources env init = (Ok (found env), probed env).
Proof.
  unfold list_video_sources. rewrite probe_each_run. reflexivity.
Qed.

Lemma print_sources_run (sources : list CameraInfo) :
  forall i p,
    print_sources i sources p = (Ok tt, add_events (menu_lines i sources) p).
Proof.
  induction sources as [|s rest IH]; intros i p; simpl.
  - unfold ret, add_events. rewrite app_nil_r. destruct p; reflexivity.
  - unfold bind, print, log, modify. rewrite IH. unfold add_events. simpl.
    rewrite <- app_assoc. reflexivity.
Qed.

Lemma select_source_run (sources : list CameraInfo) (p : Proc) :
  select_source env sources p =
  if (1 <? List.length sources)%nat
  then (selection env sources, add_events [EvInput prompt] p)
  else (py_getitem sources 0, p).
Proof.
  unfold select_source, selection.
  destruct (1 <? List.length sources)%nat; [|reflexivity].
  cbv [bind input log modify lift_result ret raise add_events].
  destruct (stdin_line env) as [line|]; [|reflexivity].
  destruct (py_int line); reflexivity.
Qed.

Lemma serve_selected_run (c : CameraInfo) (p : Proc) :
  serve_selected env c p =
  if bind_ok env then
    match serve_requests env
            {| video_source := List.length (caps p); camera_info := c |}
            (incoming env)
            (add_events (announced env) (opened_for env c p)) with
    | (r, p') =>
        (match r with
         | Raise KeyboardInterrupt => Ok tt
         | _ => r
         end,
         closed_down (List.length (caps p)) p')
    end
  else (Raise OSError, opened_for env c p).
Proof.
  unfold serve_selected, HTTPServer, serve_forever, opened_for, announced,
    add_events, closed_down.
  unfold bind at 1, print at 1, log at 1, modify.
  unfold bind at 1, VideoCapture at 1. cbn [caps trace clock wire].
  unfold bind at 1, cap_set at 1, log at 1, modify.
  unfold bind at 1, cap_set at 1, log at 1, modify.
  cbn [caps trace clock wire].
  unfold bind at 1.
  destruct (bind_ok env).
  - unfold log at 1, modify.
    unfold bind at 1, print at 1, log at 1, modify.
    unfold bind at 1, print at 1, log at 1, modify.
    cbn [caps trace clock wire].
    unfold try_finally, try_except.
    unfold bind at 1, log at 1, modify. cbn [caps trace clock wire].
    rewrite <- !app_assoc. cbn [app].
    match goal with |- context [serve_requests env ?s ?l ?q] =>
      destruct (serve_requests env s l q) as [[u|e] p'] end.
    + unfold cap_release, bind, log, modify, set_caps.
      cbn [caps trace clock wire]. rewrite <- !app_assoc. destruct u.
      reflexivity.
    + destruct e; unfold is_KeyboardInterrupt, ret, cap_release, bind, log,
        modify, set_caps; cbn [caps trace clock wire];
        rewrite <- !app_assoc; reflexivity.
  - unfold raise. rewrite <- !app_assoc. reflexivity.
Qed.

Lemma menu_run {A : Type} (sources : list CameraInfo) (k : M Proc A) (p : Proc) :
  (print (nl ++ "Available video sources:") ;;
   print_sources 0 sources ;; k) p =
  k (add_events (menu sources) p).
Proof.
  cbv [bind print log modify]. rewrite print_sources_run.
  unfold add_events, menu. cbn [caps trace clock wire].
  rewrite <- app_assoc. reflexivity.
Qed.

(** The whole of [main], from the initial process state. *)
Lemma main_run :
  main env init =
  match found env with
  | [] => (Ok tt, add_events [EvPrint "No video sources found!"] (probed env))
  | _ :: _ =>
      let p := add_events (menu (found env)) (probed env) in
      if (1 <? List.length (found env))%nat then
        match selection env (found env) with
        | Ok c => serve_selected env c (add_events [EvInput prompt] p)
        | Raise e => (Raise e, add_events [EvInput prompt] p)
        end
      else
        match py_getitem (found env) 0 with
        | Ok c => serve_selected env c p
        | Raise e => (Raise e, p)
        end
  end.
Proof.
  unfold main. unfold bind at 1. rewrite list_video_sources_init.
  destruct (found env) as [|c0 rest] eqn:Hfound; [reflexivity|].
  rewrite menu_run. unfold start_server, bind. rewrite select_source_run.
  cbv zeta.
  destruct (1 <? List.length (c0 :: rest))%nat.
  - destruct (selection env (c0 :: rest)); reflexivity.
  - destruct (py_getitem (c0 :: rest) 0); reflexivity.
Qed.


(** *** Which events can occur where *)

Lemma Forall_not_in (P : event -> Prop) (x : event) (l : list event) :
  Forall P l -> ~ P x -> ~ In x l.
Proof.
  intros Hall Hx Hin. rewrite Forall_forall in Hall. apply Hx, Hall, Hin.
Qed.


Lemma probed_startup : Forall startup (trace (probed env)).
Proof.
  unfold probed. cbn [trace].
  pose proof (probe_trace_handles env (range 10) 0) as H.
  eapply Forall_impl; [|exact H].
  intros [] He; simpl in *; auto; lia.
Qed.

Lemma probed_caps :
  List.length (caps (probed env)) = 10%nat /\ Forall closed (caps (probed env)).
Proof.
  unfold probed. cbn [caps]. split; [reflexivity|].
  apply Forall_forall. intros c Hc. apply in_map_iff in Hc.
  destruct Hc as (i & <- & _). reflexivity.
Qed.

Lemma menu_lines_prints (sources : list CameraInfo) :
  forall i, Forall is_print (menu_lines i sources).
Proof.
  induction sources as [|s rest IH]; intros i; simpl; constructor;
    [exact I | apply IH].
Qed.

Lemma menu_prints (sources : list CameraInfo) : Forall is_print (menu sources).
Proof. constructor; [exact I | apply menu_lines_prints]. Qed.

Lemma prints_startup (l : list event) : Forall is_print l -> Forall startup l.
Proof.
  apply Forall_impl. intros [] H; simpl in *; auto; contradiction.
Qed.

Lemma prints_no_input (l : list event) :
  Forall is_print l -> Forall (fun e => ~ is_input e) l.
Proof.
  apply Forall_impl. intros [] H; simpl in *; auto; contradiction.
Qed.

Lemma nth_error_update_at {A : Type} (f : A -> A) (l : list A) :
  forall h, (h < List.length l)%nat ->
    exists x, nth_error l h = Some x /\
              nth_error (update_at h f l) h = Some (f x).
Proof.
  induction l as [|y l IH]; intros h Hh; simpl in Hh; [lia|].
  destruct h as [|h]; simpl.
  - exists y. split; reflexivity.
  - apply IH. lia.
Qed.



(** What [serve_selected] leaves behind, from a state with [h] capture
    objects: either the listener could not bind and the new object is
    all there is, or the run ends with the release and the closing of
    the listener. *)
Lemma serve_selected_trace (c : CameraInfo) (p : Proc) :
  let h := List.length (caps p) in
  let p' := snd (serve_selected env c p) in
  (bind_ok env = false /\ p' = opened_for env c p /\
   fst (serve_selected env c p) = Raise OSError) \/
  (bind_ok env = true /\
   exists mid,
     Forall quiet mid /\
     trace p' = trace (opened_for env c p) ++ announced env ++ mid
                ++ [EvRelease h; EvServerClose] /\
     exists obj, nth_error (caps p') h = Some obj /\ closed obj).
Proof.
  cbv zeta. rewrite serve_selected_run.
  destruct (bind_ok env); [right | left; auto].
  split; [reflexivity|].
  match goal with |- context [serve_requests env ?s ?l ?q] =>
    pose proof (serve_requests_served env s l q) as (mid & Ht & Hq & Hc);
    destruct (serve_requests env s l q) as [r p7] end.
  cbn [snd] in *. exists mid. split; [exact Hq|]. split.
  - unfold closed_down. cbn [trace]. rewrite Ht.
    unfold add_events. cbn [trace]. rewrite <- !app_assoc. reflexivity.
  - unfold closed_down. cbn [caps].
    destruct (nth_error_update_at
                (fun c => {| cap_source := cap_source c; cap_open := false;
                             cap_pos := cap_pos c |})
                (caps p7) (List.length (caps p))) as (x & _ & Hx).
    + rewrite Hc. unfold add_events, opened_for. cbn [caps].
      rewrite length_app. simpl. lia.
    + eexists. split; [exact Hx | reflexivity].
Qed.

Lemma startup_not_serve : ~ startup EvServe.
Proof. exact (fun H => H). Qed.




(** C6.  When enumeration finds nothing, [main] prints the message and
    returns at once: the run consists of the ten probes followed by
    that one line, so no listener is bound, [serve_forever] is never
    entered, the only capture objects are the ten probe objects, and
    none of them holds a device. *)
Theorem no_sources_no_server :
  fst (list_video_sources env init) = Ok [] ->
  main env init =
    (Ok tt, add_events [EvPrint "No video sources found!"]
                       (snd (list_video_sources env init))) /\
  (forall ip port, ~ In (EvBind ip port) (trace (snd (main env init)))) /\
  ~ In EvServe (trace (snd (main env init))) /\
  captured (trace (snd (main env init))) = [0; 1; 2; 3; 4; 5; 6; 7; 8; 9] /\
  List.length (caps (snd (main env init))) = 10%nat /\
  Forall closed (caps (snd (main env init))).
Proof.
  rewrite list_video_sources_init. cbn [fst snd]. intros Hnone.
  inversion Hnone as [Hfound]. rewrite main_run, Hfound. cbn [fst snd].
  unfold add_events. cbn [trace caps].
  assert (Hno : forall e, ~ startup e ->
            ~ In e (trace (probed env) ++ [EvPrint "No video sources found!"])).
  { intros e He Hin. apply in_app_or in Hin. destruct Hin as [H|H].
    - exact (Forall_not_in startup _ _ probed_startup He H).
    - simpl in H. destruct H as [H|[]]. subst e. apply He. exact I. }
  split; [reflexivity|]. split; [|split; [|split; [|split]]].
  - intros ip port. apply Hno. exact (fun H => H).
  - apply Hno. exact (fun H => H).
  - rewrite captured_app. unfold probed. cbn [trace].
    rewrite captured_probe_trace. reflexivity.
  - apply probed_caps.
  - apply probed_caps.
Qed.


Lemma probed_no_input : Forall (fun e => ~ is_input e) (trace (probed env)).
Proof.
  unfold probed. cbn [trace].
  eapply Forall_impl; [|exact (probe_trace_handles env (range 10) 0)].
  intros [] He; simpl in *; auto.
Qed.

Lemma quiet_no_input (l : list event) :
  Forall quiet l -> Forall (fun e => ~ is_input e) l.
Proof.
  apply Forall_impl. intros [] H; simpl in *; auto.
Qed.

(** No prompt is shown from [serve_selected] on. *)
Lemma serve_selected_no_input (c : CameraInfo) (p : Proc) :
  exists evs,
    trace (snd (serve_selected env c p)) =
      trace p ++ EvPrint (nl ++ "Using: " ++ name c)
                 :: EvCapture (List.length (caps p)) (id c) :: evs /\
    Forall (fun e => ~ is_input e) evs.
Proof.
  destruct (serve_selected_trace c p)
    as [(_ & Hp' & _) | (_ & mid & Hq & Ht & _)].
  - rewrite Hp'. unfold opened_for. cbn [trace]. eexists. split; [reflexivity|].
    repeat constructor; exact (fun H => H).
  - rewrite Ht. unfold opened_for. cbn [trace]. rewrite <- !app_assoc.
    cbn [app]. eexists. split; [reflexivity|].
    repeat (constructor; [exact (fun H => H)|]).
    apply Forall_app. split; [apply quiet_no_input, Hq|].
    repeat constructor; exact (fun H => H).
Qed.

(** C7.  The prompt is shown only when enumeration found more than one
    source.  When it found exactly one, the selection step returns that
    source without any console input, whatever the process state, and
    [main] goes on with it: it announces it and opens the streaming
    capture object on its device index. *)
Theorem prompt_only_for_several_sources (sources : list CameraInfo) :
  fst (list_video_sources env init) = Ok sources ->
  (forall text, In (EvInput text) (trace (snd (main env init))) ->
                (1 < List.length sources)%nat) /\
  (forall c, sources = [c] ->
     (forall p, select_source env sources p = (Ok c, p)) /\
     In (EvPrint (nl ++ "Using: " ++ name c)) (trace (snd (main env init))) /\
     In (EvCapture 10 (id c)) (trace (snd (main env init)))).
Proof.
  rewrite list_video_sources_init. cbn [fst]. intros Hsrc.
  inversion Hsrc as [Hfound]. clear Hsrc. subst sources.
  destruct probed_caps as [Hlen _].
  assert (Hone : forall c, found env = [c] ->
            exists evs,
              trace (snd (main env init)) =
                (trace (probed env) ++ menu [c])
                ++ EvPrint (nl ++ "Using: " ++ name c)
                   :: EvCapture 10 (id c) :: evs /\
              Forall (fun e => ~ is_input e) evs).
  { intros c Hc. rewrite main_run, Hc. cbv zeta.
    change (1 <? List.length [c])%nat with false. cbv iota.
    change (py_getitem [c] 0) with (Ok c). cbv iota.
    destruct (serve_selected_no_input c (add_events (menu [c]) (probed env)))
      as (evs & Ht & Hni).
    exists evs. split; [|exact Hni].
    rewrite Ht. unfold add_events. cbn [trace caps]. rewrite Hlen.
    reflexivity. }
  split.
  - intros text Hin.
    destruct (found env) as [|c0 [|c1 rest]] eqn:Hf; [| |simpl; lia]; exfalso.
    + rewrite main_run, Hf in Hin. unfold add_events in Hin.
      cbn [snd trace] in Hin. apply in_app_or in Hin. destruct Hin as [H|H].
      * exact (Forall_not_in _ (EvInput text) _ probed_no_input
                             (fun H => H I) H).
      * simpl in H. intuition discriminate.
    + destruct (Hone c0 eq_refl) as (evs & Ht & Hni).
      rewrite Ht in Hin.
      apply in_app_or in Hin. destruct Hin as [H|H];
        [apply in_app_or in H; destruct H as [H|H]|].
      * exact (Forall_not_in _ (EvInput text) _ probed_no_input
                             (fun H => H I) H).
      * exact (Forall_not_in _ (EvInput text) _
                             (prints_no_input _ (menu_prints [c0]))
                             (fun H => H I) H).
      * destruct H as [H|[H|H]]; try discriminate.
        exact (Forall_not_in _ (EvInput text) _ Hni (fun H => H I) H).
  - intros c Hc. split; [|split].
    + intros p. rewrite select_source_run, Hc.
      change (1 <? List.length [c])%nat with false. reflexivity.
    + destruct (Hone c Hc) as (evs & Ht & _). rewrite Ht.
      apply in_or_app. right. left. reflexivity.
    + destruct (Hone c Hc) as (evs & Ht & _). rewrite Ht.
      apply in_or_app. right. right. left. reflexivity.
Qed.

(** *** The selection line *)

Lemma py_int_raises (s : string) (e : exn) :
  py_int s = Raise e -> e = ValueError.
Proof.
  unfold py_int.
  repeat match goal with
         | |- context [match ?x with _ => _ end] => destruct x
         end;
    intros H; inversion H; reflexivity.
Qed.


Lemma py_getitem_in_range {A : Type} (l : list A) (k : Z) :
  - Z.of_nat (List.length l) <= k < Z.of_nat (List.length l) ->
  exists x, py_getitem l k = Ok x.
Proof.
  intros Hin. unfold py_getitem.
  destruct (Z.ltb_spec k 0);
    match goal with |- context [(0 <=? ?j) && (?j <? ?n)] =>
      destruct (Z.leb_spec 0 j); destruct (Z.ltb_spec j n);
      try lia; simpl;
      destruct (nth_error l (Z.to_nat j)) eqn:Hnth;
      [eexists; reflexivity | apply nth_error_None in Hnth; lia]
    end.
Qed.


End Main.

(* ================================================================== *)
(** ** The statements on sample worlds *)
(* ================================================================== *)

(** Device 0 of the one-camera world opens and delivers its first
    frame, so its probe is present. *)
Lemma enumerate_probes_in_order_witness :
  (hw_opens env_one_camera 0 = true /\
   hw_frames env_one_camera 0 0%nat <> None) /\
  exists c, probe env_one_camera 0 = Some c /\ id c = 0.
Proof.
  split.
  - split; [reflexivity | discriminate].
  - apply (proj2 (proj1 (proj2 (enumerate_probes_in_order env_one_camera)) 0)).
    split; [reflexivity | discriminate].
Defined.





(** A world in which no device opens. *)
Lemma no_sources_no_server_witness :
  fst (list_video_sources env_no_camera init) = Ok [] /\
  main env_no_camera init =
    (Ok tt, add_events [EvPrint "No video sources found!"]
                       (snd (list_video_sources env_no_camera init))).
Proof.
  split; [reflexivity|].
  apply (no_sources_no_server env_no_camera). reflexivity.
Defined.

(** Enumeration in the one-camera world. *)
Lemma prompt_only_for_several_sources_witness :
  fst (list_video_sources env_one_camera init) = Ok (found env_one_camera) /\
  forall text, In (EvInput text) (trace (snd (main env_one_camera init))) ->
               (1 < List.length (found env_one_camera))%nat.
Proof.
  assert (H : fst (list_video_sources env_one_camera init)
              = Ok (found env_one_camera))
    by (vm_compute; reflexivity).
  split; [exact H|].
  exact (proj1 (prompt_only_for_several_sources env_one_camera
                  (found env_one_camera) H)).
Defined.



(** A first viewer who goes away after three writes, then a second
    viewer, with the process still running. *)
Lemma one_connection_at_a_time_witness :
  (clock proc_live < stop_after env_leaving)%nat /\
  let run := handle_request env_leaving server0 viewer_leaving
               (snd (tick proc_live)) in
  match fst run with
  | Ok _ =>
      serve_requests env_leaving server0 [viewer_leaving; viewer_page_only]
                     proc_live =
      serve_requests env_leaving server0 [viewer_page_only] (snd run)
  | Raise e =>
      is_Exception e = false /\
      serve_requests env_leaving server0 [viewer_leaving; viewer_page_only]
                     proc_live = (Raise e, snd run)
  end /\
  (conn_path viewer_leaving = "/stream"%string ->
   conn_patience viewer_leaving = None ->
   fst run = Raise (stop_exn (stop_by env_leaving))).
Proof.
  assert (Hlive : (clock proc_live < stop_after env_leaving)%nat)
    by (vm_compute; lia).
  split; [exact Hlive|].
  exact (one_connection_at_a_time env_leaving server0 viewer_leaving
           [viewer_page_only] proc_live Hlive).
Defined.

(** C9, counterexample.  One camera, a first viewer on the stream route
    who never disconnects, a second viewer asking for the page: however
    long the process is left running before it is stopped, the second
    connection is never handled.  (Compare [leaving_viewer_then_next]
    below, where the first viewer goes away.) *)
Lemma held_stream_starves_the_next_viewer :
  incoming env_one_camera = [viewer_forever; viewer_page_only] /\
  ~ exists t,
      (1 < List.length
             (wire (snd (main (set_stop_after t env_one_camera) init))))%nat.
Proof.
  split; [reflexivity|]. intros [t Ht].
  revert Ht. rewrite main_run.
  change (found (set_stop_after t env_one_camera))
    with [{| id := 0; name := "Camera 0"; resolution := "640x480";
             backend := "V4L2" |}].
  cbv zeta. change (1 <? 1)%nat with false. cbv iota.
  match goal with |- context [py_getitem [?c] 0] =>
    change (py_getitem [c] 0) with (Ok c) end.
  cbv iota. rewrite serve_selected_run.
  change (bind_ok (set_stop_after t env_one_camera)) with true. cbv iota.
  change (incoming (set_stop_after t env_one_camera))
    with [viewer_forever; viewer_page_only].
  match goal with |- context [serve_requests ?e ?s ?l ?q] =>
    set (srv := s); set (q0 := q);
    assert (Hw : (List.length (wire (snd (serve_requests e srv l q0))) <= 1)%nat)
  end.
  { destruct t as [|t].
    - subst srv q0. vm_compute. lia.
    - assert (Hlive : (clock q0 < stop_after (set_stop_after (S t) env_one_camera))%nat)
        by (simpl; lia).
      rewrite (serve_requests_step (set_stop_after (S t) env_one_camera)
                 srv viewer_forever [viewer_page_only] q0 Hlive).
      pose proof (handle_request_held (set_stop_after (S t) env_one_camera)
                    srv viewer_forever (snd (tick q0)) eq_refl eq_refl)
        as Hheld.
      destruct (handle_request_shape (set_stop_after (S t) env_one_camera)
                  srv viewer_forever (snd (tick q0)))
        as (_ & (bytes & Hbytes) & _).
      destruct (handle_request (set_stop_after (S t) env_one_camera)
                  srv viewer_forever (snd (tick q0))) as [r p1].
      cbn [fst snd] in *. subst r. cbn [snd]. rewrite Hbytes. reflexivity. }
  destruct (serve_requests (set_stop_after t env_one_camera) srv
              [viewer_forever; viewer_page_only] q0) as [r p'].
  cbn [snd] in Hw. intros Ht. simpl in Ht. lia.
Defined.

(** A request for [/favicon.ico]. *)
Lemma other_paths_get_no_response_witness :
  let self := new_handler server0
                {| conn_path := "/favicon.ico"; conn_version := "HTTP/1.1";
                   conn_patience := None |} proc_live in
  path self <> "/"%string /\ path self <> "/stream"%string /\
  do_GET env_one_camera self = (Ok tt, self).
Proof.
  cbv zeta. split; [discriminate | split; [discriminate|]].
  apply (other_paths_get_no_response env_one_camera); discriminate.
Defined.

(** A viewer whose client goes away: the failed write ends that
    viewer's loop with the message of line 209, and the next connection
    is then served. *)
Example leaving_viewer_then_next :
  fst (main env_leaving init) = Ok tt /\
  List.length (wire (snd (main env_leaving init))) = 2%nat /\
  In (EvPrint "Streaming error: [Errno 32] Broken pipe")
     (trace (snd (main env_leaving init))).
Proof.
  split; [reflexivity | split; [reflexivity|]].
  vm_compute. repeat (try (left; reflexivity); right).
Qed.

(* ================================================================== *)
(** * Further properties *)
(* ================================================================== *)

(** ** The two routes of the handler *)

Section Routes.

Variable env : Env.




(** *** Which exceptions leave the handler *)

Lemma hr_ret {A : Type} (a : A) : handler_raises env (ret a).
Proof. intros self e self' H. inversion H. Qed.

Lemma hr_get : handler_raises env (@get Handler).
Proof. intros self e self' H. inversion H. Qed.

Lemma hr_modify (f : Handler -> Handler) : handler_raises env (modify f).
Proof. intros self e self' H. inversion H. Qed.

Lemma hr_stop {A : Type} :
  handler_raises env (@raise Handler A (stop_exn (stop_by env))).
Proof. intros self e self' H. inversion H; subst. now right. Qed.

Lemma hr_bind {A B : Type} (c : M Handler A) (k : A -> M Handler B) :
  handler_raises env c -> (forall a, handler_raises env (k a)) ->
  handler_raises env (bind c k).
Proof.
  intros Hc Hk self e self' H. unfold bind in H.
  destruct (c self) as [[a|e1] s1] eqn:Hrun.
  - eapply Hk; eassumption.
  - inversion H; subst. eapply Hc; eassumption.
Qed.

Lemma hr_wfile_write (data : list byte) : handler_raises env (wfile_write data).
Proof.
  intros self e self' H. unfold wfile_write in H.
  destruct (patience self) as [[|k]|]; inversion H; subst. now left.
Qed.

Lemma hr_in_proc {A : Type} (c : M Proc A) :
  (forall p, exists a, fst (c p) = Ok a) -> handler_raises env (in_proc c).
Proof.
  intros Hc self e self' H. unfold in_proc in H.
  destruct (Hc (proc self)) as [a Ha].
  destruct (c (proc self)) as [r p1]. simpl in Ha. subst r. inversion H.
Qed.

Lemma hr_cap_read (h : nat) : handler_raises env (in_proc (cap_read env h)).
Proof.
  apply hr_in_proc. intros p.
  destruct (cap_read_run env h p) as (fr & p' & Hrd & _).
  rewrite Hrd. eexists. reflexivity.
Qed.

Ltac raises :=
  repeat first
    [ apply hr_ret | apply hr_get | apply hr_modify | apply hr_stop
    | apply hr_wfile_write | apply hr_cap_read
    | apply hr_in_proc; intros; eexists; reflexivity
    | apply hr_bind; [|intros]
    | match goal with
      | |- handler_raises _ (if ?b then _ else _) => destruct b
      | |- handler_raises _ (match ?x with _ => _ end) => destruct x
      end ].

Lemma hr_stream_iteration : handler_raises env (stream_iteration env).
Proof.
  unfold stream_iteration, send_header, end_headers, flush_headers, queue.
  cbv zeta. raises.
Qed.

Lemma hr_stream_loop (fuel : nat) : handler_raises env (stream_loop env fuel).
Proof.
  induction fuel as [|fuel IH]; simpl.
  - apply hr_stop.
  - apply hr_bind; [apply hr_stream_iteration | intros _].
    apply hr_bind; [|intros _; exact IH].
    apply hr_in_proc. intros p. eexists. reflexivity.
Qed.


Lemma hr_do_GET : handler_raises env (do_GET env).
Proof.
  unfold do_GET, send_response, send_header, end_headers, flush_headers, queue.
  cbv zeta. raises.
  intros self e self' H. unfold try_except in H.
  match type of H with context [stream_loop env ?f ?s] =>
    pose proof (hr_stream_loop f s) as Hl;
    destruct (stream_loop env f s) as [[u|e1] s1] end.
  - inversion H.
  - destruct (is_Exception e1).
    + unfold in_proc, print, log, modify in H. inversion H.
    + inversion H; subst. eapply Hl. reflexivity.
Qed.



(** *** Writes that fail part of the way *)

(** An iteration that obtains a frame, whatever the client still
    accepts: it either writes the whole part, or fails having written
    an initial piece of it. *)
Lemma stream_iteration_partial (self : Handler) (frame : Frame) :
  fst (cap_read env (video_source (server self)) (proc self)) = Ok (Some frame) ->
  versioned self = true ->
  headers_buffer self = [] ->
  ~ accepts (patience self) 4 ->
  exists self' written rest,
    stream_iteration env self = (Raise BrokenPipeError, self') /\
    sent self' = sent self ++ written /\
    segment env frame = written ++ rest.
Proof.
  intros Hpoll Hver Hbuf Hacc.
  unfold stream_iteration, bind at 1, get at 1, bind at 1, in_proc.
  destruct (cap_read env (video_source (server self)) (proc self)) as [r p'].
  simpl in Hpoll; subst r.
  unfold versioned in Hver.
  unfold send_header, end_headers, flush_headers, queue, modify, bind, get,
    ret, with_buffer, with_proc, wfile_write, versioned, segment.
  cbn [patience headers_buffer request_version sent proc server path].
  rewrite Hbuf.
  destruct (patience self) as [[|[|[|[|m]]]]|] eqn:Hpat;
    try (exfalso; apply Hacc; simpl; lia);
    repeat (cbn [patience headers_buffer request_version sent proc server
                 path];
            rewrite ?Hver);
    cbn [app List.concat]; rewrite ?app_nil_r.
  - eexists. exists []. eexists. split; [reflexivity | split].
    + cbn [sent]. now rewrite app_nil_r.
    + reflexivity.
  - eexists. exists (encode ("--frame" ++ crlf)). eexists.
    split; [reflexivity | split; [reflexivity|]]. reflexivity.
  - eexists.
    exists (encode ("--frame" ++ crlf)
            ++ encode ("Content-type: image/jpeg" ++ crlf)
            ++ encode ("Content-length: "
                       ++ str_nat (List.length
                            (imencode env ".jpg" frame
                               [IMWRITE_JPEG_QUALITY; 95])) ++ crlf)
            ++ encode crlf).
    eexists. split; [reflexivity | split].
    + cbn [sent]. rewrite <- !app_assoc. reflexivity.
    + rewrite <- !app_assoc. reflexivity.
  - eexists.
    exists (encode ("--frame" ++ crlf)
            ++ encode ("Content-type: image/jpeg" ++ crlf)
            ++ encode ("Content-length: "
                       ++ str_nat (List.length
                            (imencode env ".jpg" frame
                               [IMWRITE_JPEG_QUALITY; 95])) ++ crlf)
            ++ encode crlf
            ++ imencode env ".jpg" frame [IMWRITE_JPEG_QUALITY; 95]).
    eexists. split; [reflexivity | split].
    + cbn [sent]. rewrite <- !app_assoc. reflexivity.
    + rewrite <- !app_assoc. reflexivity.
Qed.

Lemma stream_loop_prefix (fuel : nat) :
  forall self,
    versioned self = true ->
    headers_buffer self = [] ->
    exists rest,
      sent self ++ segments env (video_source (server self)) fuel (proc self)
      = sent (snd (stream_loop env fuel self)) ++ rest.
Proof.
  induction fuel as [|fuel IH]; intros self Hver Hbuf.
  - exists []. reflexivity.
  - cbn [stream_loop segments].
    assert (Hstep : forall s1,
              stream_iteration env self = (Ok tt, s1) ->
              stream_loop env (S fuel) self = stream_loop env fuel (ticked s1)).
    { intros s1 H. cbn [stream_loop]. unfold bind at 1. rewrite H.
      reflexivity. }
    assert (Hfail : forall e s1,
              stream_iteration env self = (Raise e, s1) ->
              stream_loop env (S fuel) self = (Raise e, s1)).
    { intros e s1 H. cbn [stream_loop]. unfold bind at 1. rewrite H.
      reflexivity. }
    cbn [stream_loop] in Hstep, Hfail.
    destruct (cap_read_run env (video_source (server self)) (proc self))
      as (frame & p' & Hrd & _).
    rewrite Hrd.
    assert (Hfull : accepts (patience self) 4 ->
              forall frame, fst (cap_read env (video_source (server self))
                                          (proc self)) = Ok (Some frame) ->
              exists rest,
                sent self ++ segment env frame
                  ++ segments env (video_source (server self)) fuel
                       (snd (tick p'))
                = sent (snd ((stream_iteration env;; in_proc tick;;
                              stream_loop env fuel) self)) ++ rest).
    { intros Hacc fr Hfr.
      rewrite (Hstep _ (stream_iteration_frame env self fr Hfr Hver Hbuf Hacc)).
      match goal with |- context [stream_loop env fuel ?s] =>
        destruct (IH s Hver eq_refl) as (rest & Hrest) end.
      exists rest. rewrite <- Hrest. unfold ticked, with_proc.
      cbn [sent server proc]. rewrite Hrd. cbn [snd].
      now rewrite <- app_assoc. }
    destruct frame as [frame|].
    + destruct (patience self) as [m|] eqn:Hpat;
        [destruct (le_lt_dec 4 m) as [Hm|Hm]|].
      * apply Hfull; [exact Hm | rewrite Hrd; reflexivity].
      * destruct (stream_iteration_partial self frame)
          as (s1 & written & rest & Hrun & Hsent & Hseg);
          [ rewrite Hrd; reflexivity | assumption | assumption
          | rewrite Hpat; simpl; lia | ].
        rewrite (Hfail _ _ Hrun). cbn [snd]. rewrite Hsent, Hseg.
        eexists. rewrite <- !app_assoc. reflexivity.
      * apply Hfull; [exact I | rewrite Hrd; reflexivity].
    + assert (Hemp : fst (cap_read env (video_source (server self))
                                   (proc self)) = Ok None)
        by (rewrite Hrd; reflexivity).
      rewrite (Hstep _ (stream_iteration_empty env self Hemp)).
      match goal with |- context [stream_loop env fuel ?s] =>
        destruct (IH s Hver Hbuf) as (rest & Hrest) end.
      exists rest. rewrite <- Hrest. unfold ticked, after_poll, with_proc.
      cbn [sent server proc]. rewrite Hrd. reflexivity.
Qed.

(** X3.  Whatever the client does, what a connection with a versioned
    request line has received on the stream route is an initial piece
    of the well-formed stream (the header block followed by one part
    per frame polled): a client that goes away cuts the stream short,
    possibly in the middle of a part, but nothing is ever sent out of
    place or repeated, and nothing follows the failed write. *)
Theorem stream_sent_is_prefix (srv : Server) (c : Connection) (p : Proc) :
  conn_path c = "/stream"%string ->
  conn_version c <> "HTTP/0.9"%string ->
  exists rest,
    stream_preamble env
    ++ segments env (video_source srv) (stop_after env - clock p) p
    = sent (snd (do_GET env (new_handler srv c p))) ++ rest.
Proof.
  intros Hpath Hver.
  assert (Hne : String.eqb (conn_version c) "HTTP/0.9" = false)
    by (apply String.eqb_neq; exact Hver).
  unfold do_GET, bind at 1, get at 1, new_handler.
  cbn [path]. rewrite Hpath.
  change (String.eqb "/stream" "/") with false.
  change (String.eqb "/stream" "/stream") with true. cbv iota.
  unfold send_response, send_header, end_headers, flush_headers, queue,
    modify, bind, get, ret, with_buffer, versioned.
  do 3 (cbn [patience headers_buffer request_version sent proc server path];
        rewrite ?Hne; cbn [negb]).
  unfold wfile_write.
  cbn [patience headers_buffer request_version sent proc server path clock].
  unfold try_except.
  assert (Hpre : [] ++ List.concat
                   ((([] ++ response_head env 200)
                     ++ [encode ("Content-type" ++ ": " ++
                                 "multipart/x-mixed-replace; boundary=frame"
                                 ++ crlf)])
                    ++ [encode crlf]) = stream_preamble env).
  { unfold stream_preamble. rewrite ?app_nil_l, !concat_app.
    cbn [List.concat]. rewrite ?app_nil_r, <- ?app_assoc. reflexivity. }
  destruct (conn_patience c) as [[|m]|] eqn:Hpat;
    cbn [patience headers_buffer request_version sent proc server path clock
         snd].
  - eexists. rewrite app_nil_l. reflexivity.
  - rewrite Hpre.
    match goal with |- context [stream_loop env ?f ?s] =>
      destruct (stream_loop_prefix f s) as (rest & Hrest);
        [ apply versioned_iff; exact Hver | reflexivity | ];
      cbn [sent server proc] in Hrest;
      destruct (stream_loop env f s) as [[u|e] s1] end;
      cbn [snd] in Hrest.
    + exists rest. exact Hrest.
    + destruct (is_Exception e);
        unfold in_proc, print, log, modify, with_proc; cbn [snd sent];
        exists rest; exact Hrest.
  - rewrite Hpre.
    match goal with |- context [stream_loop env ?f ?s] =>
      destruct (stream_loop_prefix f s) as (rest & Hrest);
        [ apply versioned_iff; exact Hver | reflexivity | ];
      cbn [sent server proc] in Hrest;
      destruct (stream_loop env f s) as [[u|e] s1] end;
      cbn [snd] in Hrest.
    + exists rest. exact Hrest.
    + destruct (is_Exception e);
        unfold in_proc, print, log, modify, with_proc; cbn [snd sent];
        exists rest; exact Hrest.
Qed.


(** *** A camera that gives nothing *)





End Routes.

(** ** The listener and the capture objects *)

Lemma same_devices_refl (p : Proc) : same_devices p p.
Proof. split; reflexivity. Qed.

Lemma same_devices_trans (p q r : Proc) :
  same_devices p q -> same_devices q r -> same_devices p r.
Proof. intros [A B] [C D]. split; congruence. Qed.

Lemma map_update_at_inv {A B : Type} (g : A -> B) (f : A -> A) (l : list A) :
  (forall x, g (f x) = g x) ->
  forall h, map g (update_at h f l) = map g l.
Proof.
  intros Hg. induction l as [|y l IH]; intros [|h]; simpl; auto.
  - now rewrite Hg.
  - now rewrite IH.
Qed.

Lemma kd_ret {A : Type} (a : A) : handler_keeps_devices (ret a).
Proof. intros self r self' H. inversion H; subst. apply same_devices_refl. Qed.

Lemma kd_raise {A : Type} (e : exn) :
  handler_keeps_devices (@raise Handler A e).
Proof. intros self r self' H. inversion H; subst. apply same_devices_refl. Qed.

Lemma kd_get : handler_keeps_devices (@get Handler).
Proof. intros self r self' H. inversion H; subst. apply same_devices_refl. Qed.

Lemma kd_bind {A B : Type} (c : M Handler A) (k : A -> M Handler B) :
  handler_keeps_devices c -> (forall a, handler_keeps_devices (k a)) ->
  handler_keeps_devices (bind c k).
Proof.
  intros Hc Hk self r self' H. unfold bind in H.
  destruct (c self) as [[a|e] s1] eqn:Hrun.
  - eapply same_devices_trans; [eapply Hc; eassumption | eapply Hk; eassumption].
  - inversion H; subst. eapply Hc; eassumption.
Qed.

Lemma kd_try_except {A : Type} (c : M Handler A) (catches : exn -> bool)
    (handler : exn -> M Handler A) :
  handler_keeps_devices c -> (forall e, handler_keeps_devices (handler e)) ->
  handler_keeps_devices (try_except c catches handler).
Proof.
  intros Hc Hh self r self' H. unfold try_except in H.
  destruct (c self) as [[a|e] s1] eqn:Hrun.
  - inversion H; subst. eapply Hc; eassumption.
  - destruct (catches e).
    + eapply same_devices_trans; [eapply Hc; eassumption | eapply Hh; eassumption].
    + inversion H; subst. eapply Hc; eassumption.
Qed.

Lemma kd_modify (f : Handler -> Handler) :
  (forall self, proc (f self) = proc self) ->
  handler_keeps_devices (modify f).
Proof.
  intros Hf self r self' H. inversion H; subst. rewrite Hf.
  apply same_devices_refl.
Qed.

Lemma kd_in_proc {A : Type} (c : M Proc A) :
  (forall p, same_devices p (snd (c p))) ->
  handler_keeps_devices (in_proc c).
Proof.
  intros Hc self r self' H. unfold in_proc in H.
  specialize (Hc (proc self)).
  destruct (c (proc self)) as [r1 p1]. inversion H; subst. exact Hc.
Qed.

Lemma kd_wfile_write (data : list byte) :
  handler_keeps_devices (wfile_write data).
Proof.
  intros self r self' H. unfold wfile_write in H.
  destruct (patience self) as [[|k]|]; inversion H; subst;
    apply same_devices_refl.
Qed.

Section Devices.

Variable env : Env.

(** A poll moves the object's position and nothing else. *)
Lemma cap_read_same_devices (h : nat) (p : Proc) :
  same_devices p (snd (cap_read env h p)).
Proof.
  unfold cap_read, lookup_cap, log, modify, bind, ret, set_caps.
  cbn [caps trace].
  destruct (nth_error (caps p) h) as [c|]; [destruct (cap_open c)|];
    cbn [snd caps]; split; try reflexivity;
    apply map_update_at_inv; reflexivity.
Qed.

Ltac keeps :=
  repeat first
    [ apply kd_ret | apply kd_raise | apply kd_get | apply kd_wfile_write
    | apply kd_modify; reflexivity
    | apply kd_in_proc; intros; first [ apply cap_read_same_devices
                                      | split; reflexivity ]
    | apply kd_bind; [|intros]
    | match goal with
      | |- handler_keeps_devices (if ?b then _ else _) => destruct b
      | |- handler_keeps_devices (match ?x with _ => _ end) => destruct x
      end ].

Lemma kd_stream_iteration : handler_keeps_devices (stream_iteration env).
Proof.
  unfold stream_iteration, send_header, end_headers, flush_headers, queue.
  cbv zeta. keeps.
Qed.

Lemma kd_stream_loop (fuel : nat) : handler_keeps_devices (stream_loop env fuel).
Proof.
  induction fuel as [|fuel IH]; simpl.
  - apply kd_raise.
  - apply kd_bind; [apply kd_stream_iteration | intros _].
    apply kd_bind; [|intros _; exact IH].
    apply kd_in_proc. intros p. split; reflexivity.
Qed.

Lemma kd_do_GET : handler_keeps_devices (do_GET env).
Proof.
  unfold do_GET, send_response, send_header, end_headers, flush_headers, queue.
  cbv zeta. keeps.
  apply kd_try_except; [apply kd_stream_loop | intros e].
  apply kd_in_proc. intros p. split; reflexivity.
Qed.

Lemma handle_request_same_devices (srv : Server) (c : Connection) (p : Proc) :
  same_devices p (snd (handle_request env srv c p)).
Proof.
  unfold handle_request.
  destruct (do_GET env (new_handler srv c p)) as [r self'] eqn:Hrun.
  pose proof (kd_do_GET _ _ _ Hrun) as Hk. simpl in Hk.
  destruct r as [u|e]; [|destruct (is_Exception e)]; exact Hk.
Qed.

Lemma serve_requests_same_devices (srv : Server) (conns : list Connection) :
  forall p, same_devices p (snd (serve_requests env srv conns p)).
Proof.
  induction conns as [|c rest IH]; intros p; simpl.
  - apply same_devices_refl.
  - unfold bind at 1, get at 1.
    destruct (stop_after env <=? clock p)%nat; [apply same_devices_refl|].
    unfold bind at 1, tick at 1, modify. unfold bind at 1.
    match goal with |- context [handle_request env srv c ?q] =>
      pose proof (handle_request_same_devices srv c q) as Hs;
      destruct (handle_request env srv c q) as [[u|e] p1]
    end; simpl in Hs.
    + eapply same_devices_trans; [exact Hs | apply IH].
    + exact Hs.
Qed.

(** The listener's loop ends in one way only: by the stopping of the
    process. *)
Lemma serve_requests_stops (srv : Server) (conns : list Connection) :
  forall p,
    fst (serve_requests env srv conns p) = Raise (stop_exn (stop_by env)).
Proof.
  induction conns as [|c rest IH]; intros p; simpl; [reflexivity|].
  unfold bind at 1, get at 1.
  destruct (stop_after env <=? clock p)%nat; [reflexivity|].
  unfold bind at 1, tick at 1, modify. unfold bind at 1.
  match goal with |- context [handle_request env srv c ?q] =>
    pose proof (handle_request_shape env srv c q) as (_ & _ & Hexn);
    pose proof (hr_do_GET env (new_handler srv c q)) as Hr;
    destruct (handle_request env srv c q) as [[u|e] p1]
  end.
  - apply IH.
  - destruct (Hexn e eq_refl) as [Hne Hget]. simpl.
    destruct (do_GET env _) as [r s1]. simpl in Hget. subst r.
    destruct (Hr e s1 eq_refl) as [-> | ->]; [discriminate | reflexivity].
Qed.

End Devices.

(** ** Startup and shutdown, continued *)

Section Lifecycle.

Variable env : Env.

Lemma py_getitem_In {A : Type} (l : list A) (k : Z) (x : A) :
  py_getitem l k = Ok x -> In x l.
Proof.
  unfold py_getitem.
  match goal with |- context [(0 <=? ?j) && (?j <? ?n)] =>
    destruct ((0 <=? j) && (j <? n)); [|discriminate];
    destruct (nth_error l (Z.to_nat j)) eqn:Hnth; [|discriminate]
  end.
  intros H. inversion H; subst. eapply nth_error_In. eassumption.
Qed.

Lemma py_getitem_raises {A : Type} (l : list A) (k : Z) (e : exn) :
  py_getitem l k = Raise e -> e = IndexError.
Proof.
  unfold py_getitem.
  match goal with |- context [(0 <=? ?j) && (?j <? ?n)] =>
    destruct ((0 <=? j) && (j <? n));
    [destruct (nth_error l (Z.to_nat j))|]
  end; intros H; inversion H; reflexivity.
Qed.

Lemma selection_In (l : list CameraInfo) (c : CameraInfo) :
  selection env l = Ok c -> In c l.
Proof.
  unfold selection. destruct (stdin_line env) as [line|]; [|discriminate].
  destruct (py_int line) as [k|e]; [|discriminate]. apply py_getitem_In.
Qed.

Lemma selection_raises (l : list CameraInfo) (e : exn) :
  selection env l = Raise e ->
  e = EOFError \/ e = ValueError \/ e = IndexError.
Proof.
  unfold selection. destruct (stdin_line env) as [line|].
  - destruct (py_int line) as [k|e1] eqn:Hint.
    + intros H. right. right. eapply py_getitem_raises. eassumption.
    + intros H. inversion H; subst. right. left.
      eapply py_int_raises. eassumption.
  - intros H. inversion H. now left.
Qed.


(** The ways [main] can go, with the exceptions that can end it before
    a source is selected. *)
Lemma main_cases :
  (exists evs,
      Forall startup evs /\
      snd (main env init) = add_events evs (probed env) /\
      (fst (main env init) = Ok tt \/
       fst (main env init) = Raise EOFError \/
       fst (main env init) = Raise ValueError \/
       fst (main env init) = Raise IndexError)) \/
  (exists evs c,
      Forall startup evs /\ In c (found env) /\
      main env init = serve_selected env c (add_events evs (probed env))).
Proof.
  rewrite main_run.
  destruct (found env) as [|c0 rest] eqn:Hfound.
  - left. exists [EvPrint "No video sources found!"]. repeat split; auto.
    repeat constructor.
  - cbv zeta. destruct (1 <? List.length (c0 :: rest))%nat.
    + assert (Hadd : forall p ev,
                 add_events [ev] (add_events (menu (c0 :: rest)) p) =
                 add_events (menu (c0 :: rest) ++ [ev]) p).
      { intros p ev. unfold add_events. cbn [caps trace clock wire].
        rewrite <- app_assoc. reflexivity. }
      assert (Hst : Forall startup (menu (c0 :: rest) ++ [EvInput prompt])).
      { apply Forall_app. split;
          [apply prints_startup, menu_prints | repeat constructor]. }
      rewrite Hadd.
      destruct (selection env (c0 :: rest)) as [c|e] eqn:Hsel.
      * right. exists (menu (c0 :: rest) ++ [EvInput prompt]), c.
        repeat split; auto. now apply selection_In.
      * left. exists (menu (c0 :: rest) ++ [EvInput prompt]).
        split; [exact Hst | split; [reflexivity|]]. cbn [fst]. right.
        destruct (selection_raises _ _ Hsel) as [-> | [-> | ->]]; auto.
    + destruct (py_getitem (c0 :: rest) 0) as [c|e] eqn:Hget.
      * right. exists (menu (c0 :: rest)), c. repeat split.
        -- apply prints_startup, menu_prints.
        -- now apply py_getitem_In in Hget.
      * discriminate.
Qed.

(** A run that reached [serve_forever] selected a source and bound the
    listener. *)
Lemma main_served :
  In EvServe (trace (snd (main env init))) ->
  bind_ok env = true /\
  exists evs c,
    Forall startup evs /\ In c (found env) /\
    main env init = serve_selected env c (add_events evs (probed env)).
Proof.
  intros Hserve.
  destruct main_cases as [(evs & Hst & Hp & _) | (evs & c & Hst & Hc & Hrun)].
  - exfalso. rewrite Hp in Hserve. unfold add_events in Hserve.
    cbn [trace] in Hserve. apply in_app_or in Hserve.
    destruct Hserve as [H|H].
    + exact (Forall_not_in startup _ _ (probed_startup env)
                           (startup_not_serve) H).
    + exact (Forall_not_in startup _ _ Hst startup_not_serve H).
  - split; [|exists evs, c; auto].
    rewrite Hrun in Hserve.
    destruct (serve_selected_trace env c (add_events evs (probed env)))
      as [(_ & Hp' & _) | (Hb & _)]; [|exact Hb].
    exfalso. rewrite Hp' in Hserve. unfold opened_for in Hserve.
    cbn [trace] in Hserve. apply in_app_or in Hserve.
    destruct Hserve as [H|H].
    + unfold add_events in H. cbn [trace] in H. apply in_app_or in H.
      destruct H as [H|H].
      * exact (Forall_not_in startup _ _ (probed_startup env)
                             startup_not_serve H).
      * exact (Forall_not_in startup _ _ Hst startup_not_serve H).
    + simpl in H. intuition discriminate.
Qed.

(** X5.  How [main] ends once it has been serving: a keyboard interrupt
    is swallowed and [main] returns normally; any other stopping
    exception is passed on to the caller, after the cleanup of the
    [finally] clause. *)
Theorem main_result_after_serving :
  In EvServe (trace (snd (main env init))) ->
  fst (main env init) =
    match stop_by env with
    | StopInterrupt => Ok tt
    | StopExit => Raise SystemExit
    end.
Proof.
  intros Hserve.
  destruct (main_served Hserve) as (Hb & evs & c & _ & _ & Hrun).
  rewrite Hrun, serve_selected_run, Hb.
  match goal with |- context [serve_requests env ?s ?l ?q] =>
    pose proof (serve_requests_stops env s l q) as Hstop;
    destruct (serve_requests env s l q) as [r p'] end.
  simpl in Hstop. subst r. destruct (stop_by env); reflexivity.
Qed.

(** X6.  The order of things in a run that serves: everything up to the
    selection is probing (capture objects 0 to 9) and console traffic;
    then the source is announced, the streaming capture object is
    created on the selected source's device index, a source that was
    enumerated; width 1920 and height 1080 are requested from it; the
    listener is bound to the detected address (the loopback address
    when detection failed) and port 8000; the address is printed; only
    then does serving begin.  While serving, nothing happens but polls
    and prints. *)
Theorem startup_sequence :
  In EvServe (trace (snd (main env init))) ->
  exists before c during,
    Forall startup before /\ In c (found env) /\ Forall quiet during /\
    trace (snd (main env init)) =
      before
      ++ [EvPrint (nl ++ "Using: " ++ name c);
          EvCapture 10 (id c);
          EvSet 10 CAP_PROP_FRAME_WIDTH 1920;
          EvSet 10 CAP_PROP_FRAME_HEIGHT 1080;
          EvBind (get_local_ip env) 8000;
          EvPrint (nl ++ "Streaming video at: http://" ++ get_local_ip env
                   ++ ":" ++ "8000");
          EvPrint "Press Ctrl+C to stop the server";
          EvServe]
      ++ during ++ [EvRelease 10; EvServerClose] /\
    (udp_local_addr env = None -> get_local_ip env = "127.0.0.1"%string).
Proof.
  intros Hserve.
  destruct (main_served Hserve) as (Hb & evs & c & Hst & Hc & Hrun).
  destruct (probed_caps env) as [Hlen _].
  destruct (serve_selected_trace env c (add_events evs (probed env)))
    as [(Hb' & _) | (_ & mid & Hq & Ht & _)]; [congruence|].
  exists (trace (probed env) ++ evs), c, mid.
  split; [|split; [exact Hc | split; [exact Hq | split]]].
  - apply Forall_app. split; [apply probed_startup | exact Hst].
  - rewrite Hrun, Ht. unfold opened_for, announced, add_events.
    cbn [trace caps]. rewrite Hlen. rewrite <- !app_assoc. reflexivity.
  - intros Hnone. unfold get_local_ip. rewrite Hnone. reflexivity.
Qed.


Lemma map_open_closed (l : list Capture) :
  Forall closed l <-> map cap_open l = repeat false (List.length l).
Proof.
  induction l as [|c l IH]; simpl.
  - split; [reflexivity | constructor].
  - split.
    + intros H. inversion H as [|? ? Hc Hl]; subst.
      rewrite (proj1 IH Hl). unfold closed in Hc. now rewrite Hc.
    + intros H. inversion H as [[Hc Hl]]. constructor.
      * exact Hc.
      * apply IH. rewrite Hc in Hl. exact Hl.
Qed.

Lemma map_open_release (l : list Capture) :
  forall h,
    map cap_open
        (update_at h (fun c => {| cap_source := cap_source c;
                                  cap_open := false;
                                  cap_pos := cap_pos c |}) l)
    = update_at h (fun _ => false) (map cap_open l).
Proof.
  induction l as [|x l IH]; intros [|h]; simpl; auto. now rewrite IH.
Qed.

(** X8.  However [main] ends, short of a failed bind, no capture object
    holds a device afterwards: each probe closed its own, serving never
    opens or closes a device, and the [finally] clause closes the
    streaming one. *)
Theorem no_device_held_at_exit :
  fst (main env init) <> Raise OSError ->
  Forall closed (caps (snd (main env init))).
Proof.
  intros Hres.
  destruct (probed_caps env) as [Hlen Hclosed].
  destruct main_cases as [(evs & _ & Hp & _) | (evs & c & _ & _ & Hrun)].
  - rewrite Hp. exact Hclosed.
  - rewrite Hrun in *. rewrite serve_selected_run in *.
    destruct (bind_ok env); [|now elim Hres].
    change (List.length (caps (add_events evs (probed env))))
      with (List.length (caps (probed env))). rewrite Hlen.
    match goal with |- context [serve_requests env ?s ?l ?q] =>
      pose proof (serve_requests_same_devices env s l q) as [_ Hopen];
      destruct (serve_requests env s l q) as [r p'] end.
    cbn [snd] in *. unfold closed_down. cbn [caps].
    unfold add_events, opened_for in Hopen. cbn [caps] in Hopen.
    rewrite map_app in Hopen. cbn [map cap_open] in Hopen.
    apply map_open_closed. rewrite update_at_length.
    assert (Hl : List.length (caps p') = 11%nat).
    { rewrite <- (length_map cap_open), Hopen, length_app, length_map, Hlen.
      reflexivity. }
    rewrite Hl, map_open_release, Hopen.
    rewrite (proj1 (map_open_closed _) Hclosed), Hlen. reflexivity.
Qed.

End Lifecycle.

(** ** What enumeration reports *)

Section Enumeration.

Variable env : Env.

(** The record a successful probe returns. *)
Lemma probe_record (i : Z) (c : CameraInfo) :
  probe env i = Some c ->
  id c = i /\
  resolution c = (str_Z (hw_width env i) ++ "x" ++ str_Z (hw_height env i))%string /\
  backend c = hw_backend env i /\
  name c = match wmi_names env with
           | Some names =>
               match find usb_camera names with
               | Some n => n
               | None => ("Camera " ++ str_Z i)%string
               end
           | None => ("Camera " ++ str_Z i)%string
           end.
Proof.
  unfold probe, get_camera_info.
  unfold bind, VideoCapture, isOpened, lookup_cap, ret; simpl.
  destruct (hw_opens env i) eqn:Hopen; simpl; [|discriminate].
  unfold cap_get, getBackendName, cap_read, cap_release, lookup_cap, log,
    modify, bind, ret, set_caps; simpl.
  rewrite ?Hopen; simpl.
  destruct (hw_frames env i 0%nat) as [fr|]; simpl; [|discriminate].
  destruct (wmi_names env) as [names|]; [destruct (find usb_camera names)|];
    simpl; intros H; inversion H; repeat split.
Qed.

(** X9.  Where the device registry lists an entity whose name contains
    both [USB] and [Camera], every camera found is given the name of the
    first such entity, whatever its device index: the lookup of lines
    28-39 does not depend on [source_id], so two different cameras are
    listed under one name. *)
Theorem registry_name_is_shared (names : list string) (n : string)
    (i : Z) (c : CameraInfo) :
  wmi_names env = Some names ->
  find usb_camera names = Some n ->
  probe env i = Some c ->
  name c = n /\ In n names /\ contains "USB" n = true /\
  contains "Camera" n = true.
Proof.
  intros Hw Hf Hp.
  destruct (probe_record i c Hp) as (_ & _ & _ & Hname).
  rewrite Hw, Hf in Hname.
  destruct (find_some _ _ Hf) as [Hin Husb].
  unfold usb_camera in Husb. apply andb_true_iff in Husb.
  destruct Husb as [H1 H2]. auto.
Qed.

Lemma to_int_proper (a : Z) :
  Z.to_int a <> Decimal.Pos Decimal.Nil /\ Z.to_int a <> Decimal.Neg Decimal.Nil.
Proof.
  destruct a as [|q|q]; simpl; split; intros H; inversion H as [H'];
    exact (DecimalPos.Unsigned.to_uint_nonnil q H').
Qed.

Lemma str_Z_inj (a b : Z) : str_Z a = str_Z b -> a = b.
Proof.
  unfold str_Z. intros H. apply DecimalZ.to_int_inj.
  destruct (to_int_proper a) as [Ha1 Ha2].
  destruct (to_int_proper b) as [Hb1 Hb2].
  pose proof (NilZero.isi (Z.to_int a) Ha1 Ha2) as Ha.
  pose proof (NilZero.isi (Z.to_int b) Hb1 Hb2) as Hb.
  rewrite H in Ha. congruence.
Qed.

(** X10.  Without such a registry entry (no registry at all, or no
    matching entity) a camera found at index [i] is called [Camera i],
    and different cameras get different names. *)
Theorem fallback_names_are_distinct (i j : Z) (c d : CameraInfo) :
  match wmi_names env with
  | Some names => find usb_camera names = None
  | None => True
  end ->
  probe env i = Some c ->
  probe env j = Some d ->
  name c = ("Camera " ++ str_Z i)%string /\
  (name c = name d -> i = j).
Proof.
  intros Hw Hc Hd.
  destruct (probe_record i c Hc) as (_ & _ & _ & Hnc).
  destruct (probe_record j d Hd) as (_ & _ & _ & Hnd).
  assert (Hi : name c = ("Camera " ++ str_Z i)%string)
    by (destruct (wmi_names env); [rewrite Hw in Hnc|]; exact Hnc).
  assert (Hj : name d = ("Camera " ++ str_Z j)%string)
    by (destruct (wmi_names env); [rewrite Hw in Hnd|]; exact Hnd).
  split; [exact Hi|].
  rewrite Hi, Hj. simpl. intros H. inversion H as [H']. now apply str_Z_inj.
Qed.

Lemma ids_of_probes (indices : list Z) :
  map id (flat_map (fun i => option_list (probe env i)) indices) =
  filter (fun i => match probe env i with Some _ => true | None => false end)
         indices.
Proof.
  induction indices as [|i rest IH]; simpl; [reflexivity|].
  rewrite map_app, IH.
  destruct (probe env i) as [c|] eqn:Hp; simpl; [|reflexivity].
  now rewrite (probe_id env i c Hp).
Qed.

Lemma StronglySorted_filter {A : Type} (R : A -> A -> Prop) (f : A -> bool)
    (l : list A) :
  StronglySorted R l -> StronglySorted R (filter f l).
Proof.
  induction 1 as [|a l Hs IH Ha]; simpl; [constructor|].
  destruct (f a); [|exact IH]. constructor; [exact IH|].
  rewrite Forall_forall in *. intros x Hx. apply filter_In in Hx.
  apply Ha. tauto.
Qed.

(** X11.  What the enumeration returns, from any process state: a
    device index is among the listed ids exactly when it lies between 0
    and 9 and the device works (it opens and delivers a first frame);
    the ids are listed in strictly increasing order, so none twice.  A
    working camera at index 10 or above is never listed. *)
Theorem enumerated_ids (p : Proc) (sources : list CameraInfo) :
  fst (list_video_sources env p) = Ok sources ->
  (forall i, In i (map id sources) <-> 0 <= i <= 9 /\ works env i) /\
  StronglySorted Z.lt (map id sources).
Proof.
  unfold list_video_sources. rewrite probe_each_run. cbn [fst app].
  intros H.
  apply (f_equal (fun r => match r with Ok l => l | Raise _ => [] end)) in H.
  cbv beta iota in H. subst sources.
  rewrite ids_of_probes.
  change (range 10) with [0; 1; 2; 3; 4; 5; 6; 7; 8; 9]. split.
  - intros i. rewrite filter_In. unfold works.
    rewrite <- probe_present_iff.
    split.
    + intros [Hin Hp]. split; [simpl in Hin; lia|].
      destruct (probe env i) as [c|]; [eauto | discriminate].
    + intros [Hr [c Hc]]. split; [simpl; lia | now rewrite Hc].
  - apply StronglySorted_filter.
    repeat (constructor; [|repeat constructor; lia]). constructor.
Qed.

End Enumeration.

(** ** The menu and the selection *)

(** The characters [str] produces for a natural number. *)
Lemma decimal_chars (d : Decimal.uint) :
  Forall (fun c => is_space c = false)
         (list_ascii_of_string (NilEmpty.string_of_uint d)).
Proof.
  induction d; simpl; constructor; auto.
Qed.

Lemma lstrip_clean (l : list ascii) :
  Forall (fun c => is_space c = false) l -> lstrip l = l.
Proof.
  intros H. destruct H as [|c l Hc _]; simpl; [reflexivity|].
  now rewrite Hc.
Qed.

Lemma strip_clean (l : list ascii) :
  Forall (fun c => is_space c = false) l -> strip l = l.
Proof.
  intros H. unfold strip. rewrite (lstrip_clean l H).
  rewrite lstrip_clean by (apply Forall_rev; exact H).
  apply rev_involutive.
Qed.

Lemma int_digits_decimal (d : Decimal.uint) :
  forall st acc,
    d <> Decimal.Nil \/ st = AfterDigit ->
    int_digits st (Z.of_nat acc)
               (list_ascii_of_string (NilEmpty.string_of_uint d))
    = Some (Z.of_nat (Nat.of_uint_acc d acc)).
Proof.
  induction d; intros st acc Hst;
    [ destruct Hst as [H| ->]; [now elim H | reflexivity] | .. ];
    cbn [NilEmpty.string_of_uint list_ascii_of_string int_digits
         Nat.of_uint_acc];
    match goal with |- context [digit_of ?c] =>
      let v := eval vm_compute in (digit_of c) in
      change (digit_of c) with v end;
    cbv iota;
    match goal with |- int_digits _ ?z _ = Some (Z.of_nat (Nat.of_uint_acc _ ?n)) =>
      replace z with (Z.of_nat n)
        by (rewrite ?Nat2Z.inj_succ, Nat.tail_mul_spec, Nat2Z.inj_mul;
            simpl Z.of_nat; lia)
    end;
    apply IHd; now right.
Qed.

(** Reading back what [str] wrote. *)
Lemma py_int_str_nat (n : nat) : py_int (str_nat n) = Ok (Z.of_nat n).
Proof.
  unfold str_nat, NilZero.string_of_uint.
  pose proof (DecimalNat.Unsigned.of_to n) as Hn. unfold Nat.of_uint in Hn.
  destruct (Nat.to_uint n) as [|d|d|d|d|d|d|d|d|d|d] eqn:Hd;
    [ simpl in Hn; subst n; reflexivity | .. ];
    unfold py_int;
    rewrite (strip_clean _ (decimal_chars _));
    match goal with |- context [list_ascii_of_string (NilEmpty.string_of_uint ?u)] =>
      assert (Hnn : u <> Decimal.Nil) by discriminate;
      pose proof (int_digits_decimal u AtStart 0 (or_introl Hnn)) as Hi;
      rewrite Hn in Hi; change (Z.of_nat 0) with 0 in Hi
    end;
    cbn [NilEmpty.string_of_uint list_ascii_of_string] in *;
    cbv iota; rewrite Hi; reflexivity.
Qed.

Lemma py_int_minus_str_nat (n : nat) :
  py_int ("-" ++ str_nat n) = Ok (- Z.of_nat n).
Proof.
  unfold str_nat, NilZero.string_of_uint.
  pose proof (DecimalNat.Unsigned.of_to n) as Hn. unfold Nat.of_uint in Hn.
  destruct (Nat.to_uint n) as [|d|d|d|d|d|d|d|d|d|d] eqn:Hd;
    [ simpl in Hn; subst n; reflexivity | .. ];
    unfold py_int;
    match goal with |- context [("-" ++ NilEmpty.string_of_uint ?u)%string] =>
      change (list_ascii_of_string ("-" ++ NilEmpty.string_of_uint u))
        with ("-"%char :: list_ascii_of_string (NilEmpty.string_of_uint u));
      rewrite (strip_clean _ (Forall_cons "-"%char eq_refl (decimal_chars u)));
      assert (Hnn : u <> Decimal.Nil) by discriminate;
      pose proof (int_digits_decimal u AtStart 0 (or_introl Hnn)) as Hi;
      rewrite Hn in Hi; change (Z.of_nat 0) with 0 in Hi
    end;
    cbv iota; rewrite Hi; reflexivity.
Qed.

Lemma menu_lines_nth (sources : list CameraInfo) :
  forall j i c,
    nth_error sources i = Some c ->
    In (menu_line (j + i) c) (menu_lines j sources).
Proof.
  induction sources as [|s rest IH]; intros j [|i] c H; simpl in H;
    try discriminate.
  - inversion H; subst. rewrite Nat.add_0_r. left. reflexivity.
  - right. replace (j + S i)%nat with (S j + i)%nat by lia. now apply IH.
Qed.

Section Selection.

Variable env : Env.

(** X12.  The menu and the prompt agree: the number printed in front of
    a source, typed back at the prompt, selects that very source. *)
Theorem typed_menu_index_selects
    (sources : list CameraInfo) (i : nat) (c : CameraInfo) (p : Proc) :
  (1 < List.length sources)%nat ->
  nth_error sources i = Some c ->
  stdin_line env = Some (str_nat i) ->
  In (menu_line i c) (menu sources) /\
  select_source env sources p = (Ok c, add_events [EvInput prompt] p).
Proof.
  intros Hlen Hnth Hline. split.
  - right. apply (menu_lines_nth sources 0 i c Hnth).
  - rewrite select_source_run.
    destruct (Nat.ltb_spec 1 (List.length sources)); [|lia].
    unfold selection. rewrite Hline, py_int_str_nat.
    unfold py_getitem.
    assert (Hi : (i < List.length sources)%nat)
      by (apply nth_error_Some; congruence).
    destruct (Z.ltb_spec (Z.of_nat i) 0); [lia|].
    destruct (Z.leb_spec 0 (Z.of_nat i)); [|lia].
    destruct (Z.ltb_spec (Z.of_nat i) (Z.of_nat (List.length sources))); [|lia].
    cbn [andb]. rewrite Nat2Z.id, Hnth. reflexivity.
Qed.

(** X13.  A minus sign counts from the end of the list: with [n]
    sources on the menu, typing [-k] for [k] between 1 and [n] selects
    the source at position [n - k]; [-1] is the last one. *)
Theorem negative_index_selects_from_end
    (sources : list CameraInfo) (k : nat) (c : CameraInfo) (p : Proc) :
  (1 < List.length sources)%nat ->
  (1 <= k <= List.length sources)%nat ->
  nth_error sources (List.length sources - k) = Some c ->
  stdin_line env = Some ("-" ++ str_nat k)%string ->
  select_source env sources p = (Ok c, add_events [EvInput prompt] p).
Proof.
  intros Hlen Hk Hnth Hline.
  rewrite select_source_run.
  destruct (Nat.ltb_spec 1 (List.length sources)); [|lia].
  unfold selection. rewrite Hline, py_int_minus_str_nat.
  unfold py_getitem.
  destruct (Z.ltb_spec (- Z.of_nat k) 0); [|lia].
  destruct (Z.leb_spec 0 (- Z.of_nat k + Z.of_nat (List.length sources)));
    [|lia].
  destruct (Z.ltb_spec (- Z.of_nat k + Z.of_nat (List.length sources))
                       (Z.of_nat (List.length sources))); [|lia].
  cbn [andb].
  replace (Z.to_nat (- Z.of_nat k + Z.of_nat (List.length sources)))
    with (List.length sources - k)%nat by lia.
  rewrite Hnth. reflexivity.
Qed.

End Selection.

(** ** The further properties on sample worlds *)



Lemma stream_sent_is_prefix_witness :
  conn_path viewer_leaving = "/stream"%string /\
  conn_version viewer_leaving <> "HTTP/0.9"%string /\
  exists rest,
    stream_preamble env_leaving
    ++ segments env_leaving (video_source server0)
         (stop_after env_leaving - clock proc_live) proc_live
    = sent (snd (do_GET env_leaving
                   (new_handler server0 viewer_leaving proc_live))) ++ rest.
Proof.
  assert (Hv : conn_version viewer_leaving <> "HTTP/0.9"%string)
    by discriminate.
  split; [reflexivity | split; [exact Hv|]].
  exact (stream_sent_is_prefix env_leaving server0 viewer_leaving proc_live
           eq_refl Hv).
Defined.


(** A run that serves and is stopped by something other than Ctrl+C. *)
Lemma main_result_after_serving_witness :
  In EvServe (trace (snd (main env_exit init))) /\
  fst (main env_exit init) =
    match stop_by env_exit with
    | StopInterrupt => Ok tt
    | StopExit => Raise SystemExit
    end.
Proof.
  assert (H : In EvServe (trace (snd (main env_exit init)))).
  { vm_compute. repeat (try (left; reflexivity); right). }
  split; [exact H|].
  exact (main_result_after_serving env_exit H).
Defined.

Lemma startup_sequence_witness :
  In EvServe (trace (snd (main env_exit init))) /\
  exists before c during,
    Forall startup before /\ In c (found env_exit) /\ Forall quiet during /\
    trace (snd (main env_exit init)) =
      before
      ++ [EvPrint (nl ++ "Using: " ++ name c);
          EvCapture 10 (id c);
          EvSet 10 CAP_PROP_FRAME_WIDTH 1920;
          EvSet 10 CAP_PROP_FRAME_HEIGHT 1080;
          EvBind (get_local_ip env_exit) 8000;
          EvPrint (nl ++ "Streaming video at: http://"
                   ++ get_local_ip env_exit ++ ":" ++ "8000");
          EvPrint "Press Ctrl+C to stop the server";
          EvServe]
      ++ during ++ [EvRelease 10; EvServerClose] /\
    (udp_local_addr env_exit = None ->
     get_local_ip env_exit = "127.0.0.1"%string).
Proof.
  assert (H : In EvServe (trace (snd (main env_exit init)))).
  { vm_compute. repeat (try (left; reflexivity); right). }
  split; [exact H|].
  exact (startup_sequence env_exit H).
Defined.


Lemma no_device_held_at_exit_witness :
  fst (main env_exit init) <> Raise OSError /\
  Forall closed (caps (snd (main env_exit init))).
Proof.
  assert (H : fst (main env_exit init) <> Raise OSError)
    by (vm_compute; discriminate).
  split; [exact H|].
  exact (no_device_held_at_exit env_exit H).
Defined.

(** Two cameras behind one registry name. *)
Lemma registry_name_is_shared_witness :
  wmi_names env_named_cameras
    = Some ["Keyboard"; "USB Video Camera"; "USB Camera B"]%string /\
  probe env_named_cameras 0 <> None /\
  probe env_named_cameras 1 <> None /\
  forall c, probe env_named_cameras 1 = Some c ->
            name c = "USB Video Camera"%string.
Proof.
  split; [reflexivity|].
  split; [vm_compute; discriminate|].
  split; [vm_compute; discriminate|].
  intros c Hc.
  exact (proj1 (registry_name_is_shared env_named_cameras
                  ["Keyboard"; "USB Video Camera"; "USB Camera B"]%string
                  "USB Video Camera" 1 c eq_refl eq_refl Hc)).
Defined.

Lemma fallback_names_are_distinct_witness :
  wmi_names env_two_cameras = None /\
  forall c d, probe env_two_cameras 0 = Some c ->
              probe env_two_cameras 1 = Some d ->
              name c = ("Camera " ++ str_Z 0)%string /\
              (name c = name d -> 0 = 1).
Proof.
  split; [reflexivity|].
  intros c d Hc Hd.
  exact (fallback_names_are_distinct env_two_cameras 0 1 c d I Hc Hd).
Defined.

Lemma enumerated_ids_witness :
  fst (list_video_sources env_two_cameras init)
    = Ok (found env_two_cameras) /\
  StronglySorted Z.lt (map id (found env_two_cameras)).
Proof.
  assert (H : fst (list_video_sources env_two_cameras init)
              = Ok (found env_two_cameras))
    by (vm_compute; reflexivity).
  split; [exact H|].
  exact (proj2 (enumerated_ids env_two_cameras init
                  (found env_two_cameras) H)).
Defined.

(** Typing [1] at a menu of two. *)
Lemma typed_menu_index_selects_witness :
  (1 < List.length (found env_named_cameras))%nat /\
  stdin_line env_named_cameras = Some (str_nat 1) /\
  forall c, nth_error (found env_named_cameras) 1 = Some c ->
            select_source env_named_cameras (found env_named_cameras) init
            = (Ok c, add_events [EvInput prompt] init).
Proof.
  assert (Hlen : (1 < List.length (found env_named_cameras))%nat)
    by (vm_compute; lia).
  split; [exact Hlen | split; [reflexivity|]].
  intros c Hc.
  exact (proj2 (typed_menu_index_selects env_named_cameras
                  (found env_named_cameras) 1 c init Hlen Hc eq_refl)).
Defined.

(** Typing [-1] at a menu of two. *)
Lemma negative_index_selects_from_end_witness :
  (1 < List.length (found env_two_cameras))%nat /\
  stdin_line env_two_cameras = Some ("-" ++ str_nat 1)%string /\
  forall c,
    nth_error (found env_two_cameras)
              (List.length (found env_two_cameras) - 1) = Some c ->
    select_source env_two_cameras (found env_two_cameras) init
    = (Ok c, add_events [EvInput prompt] init).
Proof.
  assert (Hlen : (1 < List.length (found env_two_cameras))%nat)
    by (vm_compute; lia).
  assert (Hk : (1 <= 1 <= List.length (found env_two_cameras))%nat)
    by (vm_compute; lia).
  split; [exact Hlen | split; [reflexivity|]].
  intros c Hc.
  exact (negative_index_selects_from_end env_two_cameras
           (found env_two_cameras) 1 c init Hlen Hk Hc eq_refl).
Defined.
